(** * Loss functions of [src/loss.py]: a shallow embedding

    The module defines four classes over dense numeric arrays:
    [GradientLoss], [SigLoss], [Cosine_MSE] and the dispatcher [Loss].

    Modelling choices.

    - Array elements handed in by the caller are finite real numbers
      ([R]).  Arithmetic is exact: rounding and overflow are not
      represented.
    - A value computed by the tensor library may fail to be a finite
      number (logarithm of a non-positive operand, division by zero,
      square root of a negative operand).  Such a value is [None] in
      [xreal := option R]; every arithmetic operation the source applies
      afterwards keeps it non-finite, so [None] is absorbing.
    - A 4-D array of shape (batch, channels, height, width) is a nested
      list, outermost index first ([has_shape] states the four sizes; a
      nested list does not record the sizes of the axes inside an empty
      axis).  A Python slice [a[0:-2]], [a[2:]], [a[::k]] is the
      corresponding function on lists.  Operands of one shape are
      assumed where the source combines two arrays element by element;
      the library's shape errors and broadcasting are not represented.
    - The instance attributes of a class are a record; the one attribute
      the source mutates ([SigLoss.warm_up_counter]) is threaded through
      the calls explicitly.
    - A Python [dict] is a [gmap] with string keys; [raise] is the left
      injection of a sum.
    - The two loss classes of the tensor library that [Cosine_MSE]
      instantiates are modelled as the library computes them with its
      default arguments; its cosine embedding loss adds [1e-12] to each
      squared norm. *)

From Stdlib Require Import Reals Lra Lia.
From stdpp Require Import base option list gmap strings.

Open Scope R_scope.

(** ** Extended reals: finite values and the non-finite rest *)

Definition xreal : Type := option R.

Definition Rltb (x y : R) : bool := if Rlt_dec x y then true else false.
Definition Rleb (x y : R) : bool := if Rle_dec x y then true else false.
Definition Req_zero (x : R) : bool := if Req_dec_T x 0 then true else false.

Definition xlift2 (f : R -> R -> R) (a b : xreal) : xreal :=
  match a, b with
  | Some x, Some y => Some (f x y)
  | _, _ => None
  end.

Definition xadd : xreal -> xreal -> xreal := xlift2 Rplus.
Definition xsub : xreal -> xreal -> xreal := xlift2 Rminus.
Definition xmul : xreal -> xreal -> xreal := xlift2 Rmult.

(** [a / b]; a zero divisor gives an infinity or a NaN. *)
Definition xdiv (a b : xreal) : xreal :=
  match a, b with
  | Some x, Some y => if Req_zero y then None else Some (x / y)
  | _, _ => None
  end.

Definition xabs (a : xreal) : xreal := Rabs <$> a.

(** [torch.log] on one element: finite on positive operands only. *)
Definition rlog (x : R) : xreal := if Rltb 0 x then Some (ln x) else None.

(** [torch.sqrt] on one element: a NaN on negative operands. *)
Definition xsqrt (a : xreal) : xreal :=
  a ≫= fun x => if Rleb 0 x then Some (sqrt x) else None.

(** [torch.pow(a, 2)]. *)
Definition xsquare (a : xreal) : xreal := xmul a a.

(** [torch.sum] over a flat sequence. *)
Definition xsum (l : list xreal) : xreal := foldr xadd (Some 0) l.

(** [torch.mean]: the sum over the number of elements. *)
Definition xmean (l : list xreal) : xreal :=
  xdiv (xsum l) (Some (INR (length l))).

(** [torch.var] with its default (Bessel) correction:
    the squared deviations from the mean, summed, over [n - 1]. *)
Definition xvar (l : list xreal) : xreal :=
  let m := xmean l in
  xdiv (xsum ((fun g => xsquare (xsub g m)) <$> l))
       (Some (INR (length l) - 1)).

(** ** Four-dimensional arrays *)

Definition tensor4 (A : Type) : Type := list (list (list (list A))).

Definition map4 {A B} (f : A -> B) (t : tensor4 A) : tensor4 B :=
  fmap (M := list) (fmap (M := list) (fmap (M := list) (fmap (M := list) f))) t.

Definition zip4 {A B C} (f : A -> B -> C)
    (t : tensor4 A) (u : tensor4 B) : tensor4 C :=
  zip_with (zip_with (zip_with (zip_with f))) t u.

(** Row-major enumeration of the elements. *)
Definition flatten4 {A} (t : tensor4 A) : list A := concat (concat (concat t)).

(** [t.numel()]. *)
Definition numel {A} (t : tensor4 A) : nat := length (flatten4 t).

(** [t[b, c, h, w]], when the index is in range. *)
Definition get4 {A} (t : tensor4 A) (b c h w : nat) : option A :=
  x ← (t : list (list (list (list A)))) !! b;
  y ← x !! c;
  z ← y !! h;
  z !! w.

(** The array has shape [(B, C, H, W)]. *)
Definition has_shape {A} (B C H W : nat) (t : tensor4 A) : Prop :=
  length t = B /\
  Forall (fun c => length c = C /\
    Forall (fun m => length m = H /\
      Forall (fun r => length r = W) m) c) t.

(** Two arrays have the same shape: the same nesting, whatever the
    elements. *)
Definition same_shape {A B} (t : tensor4 A) (u : tensor4 B) : Prop :=
  map4 (fun _ => tt) t = map4 (fun _ => tt) u.

(** Every element satisfies [P]. *)
Definition Forall4 {A} (P : A -> Prop) (t : tensor4 A) : Prop :=
  Forall (Forall (Forall (Forall P))) t.

(** *** Python slices *)

(** [l[0:-2]]: all but the last two elements (nothing when there are
    fewer than two). *)
Definition slice_0_m2 {A} (l : list A) : list A := take (length l - 2) l.

(** [l[2:]]. *)
Definition slice_2_ {A} (l : list A) : list A := drop 2 l.

(** [l[::k]] through a countdown to the next kept index. *)
Fixpoint every_from {A} (k skip : nat) (l : list A) : list A :=
  match l with
  | [] => []
  | x :: l' =>
      match skip with
      | O => x :: every_from k (k - 1) l'
      | S s => every_from k s l'
      end
  end.

(** [l[::k]]: the elements at indices 0, k, 2k, ...  (The source only
    uses the steps 2, 4 and 6; Python rejects a step of 0.) *)
Definition every {A} (k : nat) (l : list A) : list A := every_from k 0 l.

(** The length of [l[::k]] when [l] has [n] elements. *)
Definition strided_length (k n : nat) : nat :=
  length (every k (replicate n tt)).

(** [t[:, :, ::k, ::k]]. *)
Definition stride_hw {A} (k : nat) (t : tensor4 A) : tensor4 A :=
  fmap (M := list) (fmap (M := list) (fun m => every k <$> every k m)) t.

(** [t[0:-2, :]] and [t[2:, :]]: slices of the first axis. *)
Definition axis0_0_m2 {A} (t : tensor4 A) : tensor4 A := slice_0_m2 t.
Definition axis0_2_ {A} (t : tensor4 A) : tensor4 A := slice_2_ t.

(** [t[:, 0:-2]] and [t[:, 2:]]: slices of the second axis. *)
Definition axis1_0_m2 {A} (t : tensor4 A) : tensor4 A := slice_0_m2 <$> t.
Definition axis1_2_ {A} (t : tensor4 A) : tensor4 A := slice_2_ <$> t.

(** [torch.sum] of an array of finite values, and of computed values. *)
Definition rsum (l : list R) : R := foldr Rplus 0 l.
Definition tsum (t : tensor4 xreal) : xreal := xsum (flatten4 t).

(** A boolean array element used as a number. *)
Definition b2r (b : bool) : R := if b then 1 else 0.

(** [target > 0], and [logical_and(target > 0, target <= max_depth)]
    when a maximal depth is configured: one element of the mask that
    [GradientLoss] and [SigLoss] both build. *)
Definition valid (max_depth : option R) (t : R) : bool :=
  match max_depth with
  | None => Rltb 0 t
  | Some d => Rltb 0 t && Rleb t d
  end.

(** ** class GradientLoss *)

Module GradientLoss.

Record t : Type := {
  valid_mask : bool;
  loss_weight : R;
  max_depth : option R;
  loss_name : string;
  eps : R
}.

Definition __init__ (valid_mask : bool) (loss_weight : R)
    (max_depth : option R) (loss_name : string) : t :=
  {| valid_mask := valid_mask;
     loss_weight := loss_weight;
     max_depth := max_depth;
     loss_name := loss_name;
     eps := 0.001 |}.

(** The pairs the loop of [gradientloss] runs over:
    [zip(input_downscaled, target_downscaled)]. *)
Definition scales (input target : tensor4 R)
    : list (tensor4 R * tensor4 R) :=
  let input_downscaled :=
    input :: ((fun i => stride_hw (2 * i) input) <$> seq 1 3) in
  let target_downscaled :=
    target :: ((fun i => stride_hw (2 * i) target) <$> seq 1 3) in
  zip input_downscaled target_downscaled.

(** [mask]: the validity of the target as 0/1, or all ones. *)
Definition mask (self : t) (target : tensor4 R) : tensor4 R :=
  if valid_mask self
  then map4 (fun x => b2r (valid (max_depth self) x)) target
  else map4 (fun _ => 1) target.

(** [N]: [torch.sum(mask)], or [input.numel()]. *)
Definition normalizer (self : t) (input target : tensor4 R) : R :=
  if valid_mask self
  then rsum (flatten4 (mask self target))
  else INR (numel input).

(** The operand of a [torch.log]: [x + self.eps]. *)
Definition log_operand (self : t) (x : tensor4 R) : tensor4 R :=
  map4 (fun v => v + eps self) x.

Definition input_log (self : t) (input : tensor4 R) : tensor4 xreal :=
  map4 rlog (log_operand self input).

Definition target_log (self : t) (target : tensor4 R) : tensor4 xreal :=
  map4 rlog (log_operand self target).

(** [log_d_diff], after the multiplication by the mask. *)
Definition log_d_diff (self : t) (input target : tensor4 R)
    : tensor4 xreal :=
  let log_d_diff := zip4 xsub (input_log self input) (target_log self target) in
  zip4 xmul log_d_diff (map4 Some (mask self target)).

Definition v_gradient (self : t) (input target : tensor4 R)
    : tensor4 xreal :=
  let log_d_diff := log_d_diff self input target in
  let mask := mask self target in
  let v_gradient :=
    map4 xabs (zip4 xsub (axis0_0_m2 log_d_diff) (axis0_2_ log_d_diff)) in
  let v_mask := zip4 Rmult (axis0_0_m2 mask) (axis0_2_ mask) in
  zip4 xmul v_gradient (map4 Some v_mask).

Definition h_gradient (self : t) (input target : tensor4 R)
    : tensor4 xreal :=
  let log_d_diff := log_d_diff self input target in
  let mask := mask self target in
  let h_gradient :=
    map4 xabs (zip4 xsub (axis1_0_m2 log_d_diff) (axis1_2_ log_d_diff)) in
  let h_mask := zip4 Rmult (axis1_0_m2 mask) (axis1_2_ mask) in
  zip4 xmul h_gradient (map4 Some h_mask).

(** What one iteration adds to [gradient_loss]. *)
Definition scale_term (self : t) (input target : tensor4 R) : xreal :=
  xdiv (xadd (tsum (h_gradient self input target))
             (tsum (v_gradient self input target)))
       (Some (normalizer self input target)).

Definition gradientloss (self : t) (input target : tensor4 R) : xreal :=
  foldl (fun gradient_loss '(input, target) =>
           xadd gradient_loss (scale_term self input target))
        (Some 0) (scales input target).

Definition forward (self : t) (depth_pred depth_gt : tensor4 R) : xreal :=
  xmul (Some (loss_weight self)) (gradientloss self depth_pred depth_gt).

(** *** The gradients as the specification words them

    The vertical gradient pairs the rows [r] and [r + 2] of the
    height axis, the horizontal gradient the columns [c] and [c + 2]
    of the width axis. *)

Definition axis2_0_m2 {A} (x : tensor4 A) : tensor4 A :=
  fmap (M := list) (fmap (M := list) slice_0_m2) x.
Definition axis2_2_ {A} (x : tensor4 A) : tensor4 A :=
  fmap (M := list) (fmap (M := list) slice_2_) x.
Definition axis3_0_m2 {A} (x : tensor4 A) : tensor4 A :=
  fmap (M := list) (fmap (M := list) (fmap (M := list) slice_0_m2)) x.
Definition axis3_2_ {A} (x : tensor4 A) : tensor4 A :=
  fmap (M := list) (fmap (M := list) (fmap (M := list) slice_2_)) x.

Definition spec_v_gradient (self : t) (input target : tensor4 R)
    : tensor4 xreal :=
  let log_d_diff := log_d_diff self input target in
  let mask := mask self target in
  zip4 xmul
    (map4 xabs (zip4 xsub (axis2_0_m2 log_d_diff) (axis2_2_ log_d_diff)))
    (map4 Some (zip4 Rmult (axis2_0_m2 mask) (axis2_2_ mask))).

Definition spec_h_gradient (self : t) (input target : tensor4 R)
    : tensor4 xreal :=
  let log_d_diff := log_d_diff self input target in
  let mask := mask self target in
  zip4 xmul
    (map4 xabs (zip4 xsub (axis3_0_m2 log_d_diff) (axis3_2_ log_d_diff)))
    (map4 Some (zip4 Rmult (axis3_0_m2 mask) (axis3_2_ mask))).

End GradientLoss.

(** ** class SigLoss *)

Module SigLoss.

Record t : Type := {
  valid_mask : bool;
  loss_weight : R;
  max_depth : option R;
  loss_name : string;
  eps : R;
  warm_up : bool;
  warm_iter : Z;
  warm_up_counter : Z
}.

Definition __init__ (valid_mask : bool) (loss_weight : R)
    (max_depth : option R) (warm_up : bool) (warm_iter : Z)
    (loss_name : string) : t :=
  {| valid_mask := valid_mask;
     loss_weight := loss_weight;
     max_depth := max_depth;
     loss_name := loss_name;
     eps := 0.001;
     warm_up := warm_up;
     warm_iter := warm_iter;
     warm_up_counter := 0 |}.

(** [self.warm_up_counter += 1]. *)
Definition bump (self : t) : t :=
  {| valid_mask := valid_mask self;
     loss_weight := loss_weight self;
     max_depth := max_depth self;
     loss_name := loss_name self;
     eps := eps self;
     warm_up := warm_up self;
     warm_iter := warm_iter self;
     warm_up_counter := warm_up_counter self + 1 |}.

(** [x[valid_mask]]: the elements of [x] at the positions where the
    boolean array is true, in row-major order. *)
Definition mask_select {A} (x : tensor4 A) (m : tensor4 bool) : list A :=
  fst <$> filter (fun p => snd p = true) (zip (flatten4 x) (flatten4 m)).

(** The first statement of [sigloss]: [input] and [target] after the
    optional filtering.  Without filtering the arrays keep their shape;
    the reductions that follow only see their elements. *)
Definition select (self : t) (input target : tensor4 R) : list R * list R :=
  if valid_mask self
  then
    let valid_mask := map4 (valid (max_depth self)) target in
    (mask_select input valid_mask, mask_select target valid_mask)
  else (flatten4 input, flatten4 target).

(** The operand of a [torch.log]: [x + self.eps]. *)
Definition log_operand (self : t) (x : list R) : list R :=
  (fun v => v + eps self) <$> x.

(** [torch.log(input + self.eps) - torch.log(target + self.eps)]. *)
Definition log_diff (self : t) (input target : list R) : list xreal :=
  zip_with xsub (rlog <$> log_operand self input)
                (rlog <$> log_operand self target).

Definition sigloss (self : t) (input target : tensor4 R) : xreal * t :=
  let '(input, target) := select self input target in
  let full :=
    let g := log_diff self input target in
    let Dg := xadd (xvar g) (xmul (Some 0.15) (xsquare (xmean g))) in
    (xsqrt Dg, self) in
  if warm_up self then
    if (warm_up_counter self <? warm_iter self)%Z then
      let g := log_diff self input target in
      let g := xmul (Some 0.15) (xsquare (xmean g)) in
      (xsqrt g, bump self)
    else full
  else full.

Definition forward (self : t) (depth_pred depth_gt : tensor4 R) : xreal * t :=
  let '(loss, self') := sigloss self depth_pred depth_gt in
  (xmul (Some (loss_weight self)) loss, self').

(** A sequence of [forward] calls on one instance: the values returned,
    in order, and the instance afterwards. *)
Fixpoint run (self : t) (calls : list (tensor4 R * tensor4 R))
    : list xreal * t :=
  match calls with
  | [] => ([], self)
  | (depth_pred, depth_gt) :: calls' =>
      let '(loss, self') := forward self depth_pred depth_gt in
      let '(losses, self'') := run self' calls' in
      (loss :: losses, self'')
  end.

(** The value [forward] returns, as a function of the elements the
    first statement of [sigloss] selected. *)
Definition value_on (self : t) (input target : list R) : xreal :=
  let g := log_diff self input target in
  xmul (Some (loss_weight self))
       (xsqrt (if warm_up self && (warm_up_counter self <? warm_iter self)%Z
               then xmul (Some 0.15) (xsquare (xmean g))
               else xadd (xvar g) (xmul (Some 0.15) (xsquare (xmean g))))).

(** The instance a call leaves behind: the counter moves on a warm-up
    call, and nothing else ever does. *)
Definition next (self : t) : t :=
  if warm_up self && (warm_up_counter self <? warm_iter self)%Z
  then bump self else self.

(** The instance before the first call and after each call. *)
Fixpoint trace (self : t) (calls : list (tensor4 R * tensor4 R)) : list t :=
  match calls with
  | [] => [self]
  | (depth_pred, depth_gt) :: calls' =>
      self :: trace (snd (forward self depth_pred depth_gt)) calls'
  end.

(** The two formulas of the specification, on the selected elements. *)
Definition warm_up_value (self : t) (input target : tensor4 R) : xreal :=
  let '(input, target) := select self input target in
  let g := log_diff self input target in
  xmul (Some (loss_weight self))
       (xsqrt (xmul (Some 0.15) (xsquare (xmean g)))).

Definition full_value (self : t) (input target : tensor4 R) : xreal :=
  let '(input, target) := select self input target in
  let g := log_diff self input target in
  xmul (Some (loss_weight self))
       (xsqrt (xadd (xvar g) (xmul (Some 0.15) (xsquare (xmean g))))).

(** The specification's [g], from its words.  [spec_pairs]: the pairs of
    a prediction and a target element at one position, in row-major
    order: all of them without [valid_mask], and with it those whose
    target is above 0 (and at most [max_depth] when one is configured).
    [spec_g]: per pair [(p, d)] the value [log(p + eps) - log(d + eps)],
    a finite number only when both operands of the logarithms are above
    zero. *)
Definition spec_pairs (valid_mask : bool) (max_depth : option R)
    (pred target : tensor4 R) : list (R * R) :=
  let pairs := zip (flatten4 pred) (flatten4 target) in
  if valid_mask
  then filter (fun pd => Rltb 0 (snd pd) &&
                         match max_depth with
                         | Some m => Rleb (snd pd) m
                         | None => true
                         end = true) pairs
  else pairs.

Definition spec_g (eps : R) (valid_mask : bool) (max_depth : option R)
    (pred target : tensor4 R) : list xreal :=
  (fun pd => if Rltb 0 (fst pd + eps) && Rltb 0 (snd pd + eps)
             then Some (ln (fst pd + eps) - ln (snd pd + eps))
             else None)
    <$> spec_pairs valid_mask max_depth pred target.

End SigLoss.

(** ** class Cosine_MSE *)

Module Cosine_MSE.

(** [torch.nn.MSELoss], a class of the tensor library the source
    instantiates with the default mean reduction, as the library
    computes it: the mean squared elementwise difference of two
    arrays. *)
Definition MSELoss (x y : list (list xreal)) : xreal :=
  xmean (zip_with (fun a b => xsquare (xsub a b)) (concat x) (concat y)).

Definition dot (x y : list R) : R := rsum (zip_with Rmult x y).

(** The constant the tensor library adds to each squared norm in its
    cosine embedding loss. *)
Definition EPSILON : R := 1e-12.

(** The cosine the library's cosine embedding loss computes for a pair of
    rows: [sum(x * y) / sqrt((sum(x * x) + EPSILON) * (sum(y * y) + EPSILON))].
    The divisor is above zero, so the quotient is finite, also for a row
    of zeros. *)
Definition cosine_similarity (x y : list R) : xreal :=
  xdiv (Some (dot x y))
       (xsqrt (Some ((dot x x + EPSILON) * (dot y y + EPSILON)))).

(** [torch.nn.CosineEmbeddingLoss], a class of the tensor library the
    source instantiates with the default margin 0 and the default mean
    reduction, as the library computes it: per row [1 - cos] where the
    label is 1, [max(cos - 0, 0)] where the label is -1 and 0 for any
    other label, averaged over the rows.  ([Cosine_MSE] only passes
    labels 1.) *)
Definition CosineEmbeddingLoss (x1 x2 : list (list R)) (label : list R) : xreal :=
  let row x y l :=
    let cos := cosine_similarity x y in
    xadd (if Req_zero (l - 1) then xsub (Some 1) cos else Some 0)
         (if Req_zero (l + 1) then Rmax 0 <$> cos else Some 0) in
  xmean (zip_with (fun xy l => row (fst xy) (snd xy) l) (zip x1 x2) label).

Record t : Type := {
  mse_loss : list (list xreal) -> list (list xreal) -> xreal;
  cosine_loss : list (list R) -> list (list R) -> list R -> xreal
}.

Definition __init__ : t :=
  {| mse_loss := MSELoss; cosine_loss := CosineEmbeddingLoss |}.

(** The transpose of [cols], each of length [n]. *)
Fixpoint transpose {A} (n : nat) (cols : list (list A)) : list (list A) :=
  match cols with
  | [] => replicate n []
  | c :: cols' => zip_with cons c (transpose n cols')
  end.

(** One batch entry, channels x height x width, as its (height * width)
    pixels, each a vector over the channels. *)
Definition pixels {A} (image : list (list (list A))) : list (list A) :=
  let channels := (fun channel => concat channel) <$> image in
  transpose (length (default [] (head channels))) channels.

(** [rearrange(x, "b c h w -> (b h w) c")]. *)
Definition rearrange {A} (x : tensor4 A) : list (list A) :=
  concat (fmap (M := list) pixels x).

(** [torch.min(row)] and [torch.max(row)] along the channel axis.  (On
    a row without channels the library refuses the reduction; the model
    has no finite value there.) *)
Definition row_min (row : list R) : xreal :=
  match row with
  | [] => None
  | x :: row' => Some (foldl Rmin x row')
  end.

Definition row_max (row : list R) : xreal :=
  match row with
  | [] => None
  | x :: row' => Some (foldl Rmax x row')
  end.

(** [(x - min_val) / (max_val - min_val + 1e-6)] on one row, its
    minimum and maximum broadcast along the channel axis. *)
Definition normalize_row (row : list R) (min_val max_val : xreal)
    : list xreal :=
  (fun v => xdiv (xsub (Some v) min_val)
                 (xadd (xsub max_val min_val) (Some 1e-6))) <$> row.

Definition normalize (x : list (list R)) (min_val max_val : list xreal)
    : list (list xreal) :=
  zip_with (fun row mm => normalize_row row (fst mm) (snd mm))
           x (zip min_val max_val).

(** A row whose channel range is not degenerate: its maximum is above
    its minimum. *)
Definition nonzero_range (row : list R) : Prop :=
  exists mn mx, row_min row = Some mn /\ row_max row = Some mx /\ mn < mx.

(** [forward] on two arrays of one shape with at least one channel.  On
    an array without channels the source's [target[:, 0]] raises an
    [IndexError], and on arrays of unequal shapes the library raises;
    neither exception is represented, so the statements about [forward]
    and about [Loss.__call__] take arrays of one shape with at least one
    channel. *)
Definition forward (self : t) (pred target : tensor4 R) : xreal :=
  let pred := rearrange pred in
  let target := rearrange target in
  let gt := (fun _ => 1) <$> target in
  let min_val := row_min <$> target in
  let max_val := row_max <$> target in
  let pred_normalized := normalize pred min_val max_val in
  let target_normalized := normalize target min_val max_val in
  xadd (cosine_loss self pred target gt)
       (mse_loss self pred_normalized target_normalized).

End Cosine_MSE.

(** ** class Loss *)

Module Loss.

(** The exception [__init__] raises, with its message. *)
Inductive exn : Type :=
  | NotImplementedError (msg : string).

Record t : Type := {
  dim : Z;
  loss_func : Cosine_MSE.t
}.

Definition __init__ (loss_type : string) (dim : Z) : exn + t :=
  if decide (loss_type = "cosine_mse")
  then inr {| dim := dim; loss_func := Cosine_MSE.__init__ |}
  else inl (NotImplementedError
              ("Loss type " +:+ loss_type +:+ " not implemented")).

(** [__call__] passes an exception of [self.loss_func] on to its caller;
    like [Cosine_MSE.forward], the model is for the arrays on which none
    is raised. *)
Definition __call__ (self : t) (pred target : tensor4 R) : gmap string xreal :=
  let loss := Cosine_MSE.forward (loss_func self) pred target in
  {[ "total" := loss ]}.

End Loss.

(** * Properties *)

(** ** The model on small inputs *)

Example slice_0_m2_of_4 : slice_0_m2 [1; 2; 3; 4]%nat = [1; 2]%nat.
Proof. reflexivity. Qed.

Example slice_0_m2_of_1 : slice_0_m2 [1]%nat = [].
Proof. reflexivity. Qed.

Example slice_2_of_4 : slice_2_ [1; 2; 3; 4]%nat = [3; 4]%nat.
Proof. reflexivity. Qed.

Example every_2_of_5 : every 2 [10; 11; 12; 13; 14]%nat = [10; 12; 14]%nat.
Proof. reflexivity. Qed.

Example every_6_of_13 : every 6 (seq 0 13) = [0; 6; 12]%nat.
Proof. reflexivity. Qed.

Example stride_hw_2_of_3_by_3 :
  stride_hw 2 [[[[11; 12; 13]; [21; 22; 23]; [31; 32; 33]]]]%nat
    = [[[[11; 13]; [31; 33]]]]%nat.
Proof. reflexivity. Qed.

Example axis0_slices_of_3 :
  axis0_0_m2 [[[[1]]]; [[[2]]]; [[[3]]]]%nat = [[[[1]]]]%nat /\
  axis0_2_ [[[[1]]]; [[[2]]]; [[[3]]]]%nat = [[[[3]]]]%nat.
Proof. split; reflexivity. Qed.

Example axis1_slices_of_1_channel :
  axis1_0_m2 [[[[1; 2; 3]]]]%nat = [[]] /\ axis1_2_ [[[[1; 2; 3]]]]%nat = [[]].
Proof. split; reflexivity. Qed.

(** Channel [c], row [h], column [w] holds [100 c + 10 h + w]. *)
Example rearrange_1_2_2_2 :
  Cosine_MSE.rearrange
    [[[[0; 1]; [10; 11]]; [[100; 101]; [110; 111]]]]%nat
    = [[0; 100]; [1; 101]; [10; 110]; [11; 111]]%nat.
Proof. reflexivity. Qed.

Example mask_select_keeps_true :
  SigLoss.mask_select [[[[5; 6]; [7; 8]]]]%nat
                      [[[[true; false]; [false; true]]]] = [5; 8]%nat.
Proof. reflexivity. Qed.

Example loss_init_mse :
  Loss.__init__ "mse" 384 =
    inl (Loss.NotImplementedError "Loss type mse not implemented").
Proof. reflexivity. Qed.

(** ** Arrays: elements, shapes, slices *)

Section arrays.

Context {A B : Type}.

Lemma concat_fmap_fmap (f : A -> B) (l : list (list A)) :
  concat (fmap (M := list) (fmap (M := list) f) l) = f <$> concat l.
Proof.
  induction l as [|x l IH]; csimpl; [done|].
  by rewrite fmap_app, IH.
Qed.

End arrays.

Lemma flatten4_map4 {A B} (f : A -> B) (t : tensor4 A) :
  flatten4 (map4 f t) = f <$> flatten4 t.
Proof.
  unfold flatten4, map4. by rewrite !concat_fmap_fmap.
Qed.

Lemma numel_map4 {A B} (f : A -> B) (t : tensor4 A) :
  numel (map4 f t) = numel t.
Proof. unfold numel. by rewrite flatten4_map4, length_fmap. Qed.

Lemma same_shape_numel {A B} (t : tensor4 A) (u : tensor4 B) :
  same_shape t u -> numel t = numel u.
Proof.
  intros H. rewrite <- (numel_map4 (fun _ => tt) t), <- (numel_map4 (fun _ => tt) u).
  unfold same_shape in H. by rewrite H.
Qed.

(** ** SigLoss: the warm-up counter *)

Section SigLoss_counter.

Import SigLoss.

Lemma sigloss_state self input target :
  snd (sigloss self input target) = next self.
Proof.
  unfold sigloss, next.
  destruct (select self input target) as [i g].
  destruct (warm_up self); simpl; [|done].
  by destruct (warm_up_counter self <? warm_iter self)%Z.
Qed.

Lemma forward_state self depth_pred depth_gt :
  snd (forward self depth_pred depth_gt) = next self.
Proof.
  unfold forward.
  rewrite <- (sigloss_state self depth_pred depth_gt).
  by destruct (sigloss self depth_pred depth_gt).
Qed.

Lemma next_counter self :
  warm_up_counter (next self) =
    (if warm_up self && (warm_up_counter self <? warm_iter self)%Z
     then warm_up_counter self + 1 else warm_up_counter self)%Z.
Proof. unfold next. by destruct (_ && _). Qed.

Lemma next_config self :
  valid_mask (next self) = valid_mask self /\
  loss_weight (next self) = loss_weight self /\
  max_depth (next self) = max_depth self /\
  eps (next self) = eps self /\
  warm_up (next self) = warm_up self /\
  warm_iter (next self) = warm_iter self.
Proof. unfold next. by destruct (_ && _). Qed.

Lemma next_bounds self :
  (0 <= warm_up_counter self <= Z.max 0 (warm_iter self))%Z ->
  (0 <= warm_up_counter (next self) <= Z.max 0 (warm_iter (next self)))%Z.
Proof.
  intros Hc. destruct (next_config self) as (_ & _ & _ & _ & _ & ->).
  rewrite next_counter.
  destruct (warm_up self); simpl; [|lia].
  destruct (Z.ltb_spec (warm_up_counter self) (warm_iter self)); lia.
Qed.

Lemma trace_bounds self calls :
  (0 <= warm_up_counter self <= Z.max 0 (warm_iter self))%Z ->
  Forall (fun s => (0 <= warm_up_counter s <= Z.max 0 (warm_iter s))%Z)
         (trace self calls).
Proof.
  revert self. induction calls as [|[p g] calls IH]; intros self Hc; simpl.
  - by constructor.
  - constructor; [done|]. apply IH. rewrite forward_state. by apply next_bounds.
Qed.

Lemma trace_warm_iter self calls :
  Forall (fun s => warm_iter s = warm_iter self) (trace self calls).
Proof.
  revert self. induction calls as [|[p g] calls IH]; intros self; simpl.
  - by constructor.
  - constructor; [done|].
    specialize (IH (snd (forward self p g))).
    rewrite forward_state in *.
    destruct (next_config self) as (_ & _ & _ & _ & _ & Hn).
    by rewrite Hn in IH.
Qed.

Lemma trace_no_warm_up self calls :
  warm_up self = false ->
  Forall (fun s => warm_up_counter s = warm_up_counter self) (trace self calls).
Proof.
  revert self. induction calls as [|[p g] calls IH]; intros self Hw; simpl.
  - by constructor.
  - constructor; [done|].
    assert (next self = self) as Hn by (unfold next; by rewrite Hw).
    rewrite forward_state, Hn. by apply IH.
Qed.

Lemma forward_value self depth_pred depth_gt :
  fst (forward self depth_pred depth_gt) =
    if warm_up self && (warm_up_counter self <? warm_iter self)%Z
    then warm_up_value self depth_pred depth_gt
    else full_value self depth_pred depth_gt.
Proof.
  unfold forward, sigloss, warm_up_value, full_value.
  destruct (select self depth_pred depth_gt) as [i g].
  destruct (warm_up self); simpl; [|done].
  by destruct (warm_up_counter self <? warm_iter self)%Z.
Qed.

Lemma forward_eq self depth_pred depth_gt :
  forward self depth_pred depth_gt =
    (fst (forward self depth_pred depth_gt), next self).
Proof.
  rewrite <- (forward_state self depth_pred depth_gt).
  by destruct (forward self depth_pred depth_gt).
Qed.

Lemma values_next self depth_pred depth_gt :
  warm_up_value (next self) depth_pred depth_gt
    = warm_up_value self depth_pred depth_gt /\
  full_value (next self) depth_pred depth_gt
    = full_value self depth_pred depth_gt.
Proof. unfold next. by destruct (_ && _). Qed.

Lemma run_cons self depth_pred depth_gt calls :
  run self ((depth_pred, depth_gt) :: calls) =
    (fst (forward self depth_pred depth_gt) :: fst (run (next self) calls),
     snd (run (next self) calls)).
Proof.
  simpl. rewrite (forward_eq self depth_pred depth_gt).
  by destruct (run (next self) calls).
Qed.

Lemma run_lookup self calls k depth_pred depth_gt :
  warm_up self = true ->
  calls !! k = Some (depth_pred, depth_gt) ->
  fst (run self calls) !! k =
    Some (if (warm_up_counter self + Z.of_nat k <? warm_iter self)%Z
          then warm_up_value self depth_pred depth_gt
          else full_value self depth_pred depth_gt).
Proof.
  revert self k. induction calls as [|[p g] calls IH]; intros self k Hw Hk.
  - done.
  - rewrite run_cons. destruct k as [|k]; simpl in *.
    + injection Hk as -> ->. rewrite forward_value, Hw. simpl.
      by rewrite Z.add_0_r.
    + destruct (next_config self) as (_ & _ & _ & _ & Hw' & Hi).
      rewrite (IH (next self) k) by (by rewrite ?Hw', ?Hw).
      destruct (values_next self depth_pred depth_gt) as [-> ->].
      rewrite Hi, next_counter, Hw. simpl. f_equal.
      destruct (Z.ltb_spec (warm_up_counter self) (warm_iter self));
        repeat case_match; try done;
        repeat match goal with
               | H : (_ <? _)%Z = true |- _ => apply Z.ltb_lt in H
               | H : (_ <? _)%Z = false |- _ => apply Z.ltb_ge in H
               end; lia.
Qed.

Lemma run_counter self calls :
  warm_up self = true ->
  (warm_up_counter self <= warm_iter self)%Z ->
  warm_up_counter (snd (run self calls)) =
    Z.min (warm_up_counter self + Z.of_nat (length calls)) (warm_iter self).
Proof.
  revert self. induction calls as [|[p g] calls IH]; intros self Hw Hc.
  - simpl. lia.
  - rewrite run_cons. simpl snd.
    destruct (next_config self) as (_ & _ & _ & _ & Hw' & Hi).
    pose proof (next_counter self) as Hn. rewrite Hw in Hn. simpl in Hn.
    rewrite IH; rewrite ?Hi, ?Hn; [| congruence |];
      destruct (Z.ltb_spec (warm_up_counter self) (warm_iter self));
      simpl length; lia.
Qed.

Lemma forward_monotone self depth_pred depth_gt :
  (warm_up_counter self
     <= warm_up_counter (snd (forward self depth_pred depth_gt)))%Z.
Proof.
  rewrite forward_state, next_counter.
  destruct (_ && _); lia.
Qed.

Lemma forward_after_warm_up self depth_pred depth_gt :
  (warm_iter self <= warm_up_counter self)%Z ->
  forward self depth_pred depth_gt = (full_value self depth_pred depth_gt, self).
Proof.
  intros Hc. rewrite forward_eq, forward_value. unfold next.
  apply Z.ltb_ge in Hc. rewrite Hc, andb_false_r. done.
Qed.

(** C9 (as amended): the counter of a fresh instance is 0; before and
    after every call of any sequence it lies between 0 and
    [max 0 warm_iter]; a call adds exactly 1 when [warm_up] holds and the
    counter is below [warm_iter], and leaves it as it is otherwise; with
    [warm_up = False] it is 0 throughout. *)
Theorem warm_up_counter_invariant
    (vm : bool) (w : R) (md : option R) (wu : bool) (wi : Z) (name : string)
    (calls : list (tensor4 R * tensor4 R)) :
  warm_up_counter (__init__ vm w md wu wi name) = 0%Z /\
  Forall (fun s => (0 <= warm_up_counter s <= Z.max 0 wi)%Z)
         (trace (__init__ vm w md wu wi name) calls) /\
  (forall self depth_pred depth_gt,
     warm_up_counter (snd (forward self depth_pred depth_gt)) =
       if warm_up self && (warm_up_counter self <? warm_iter self)%Z
       then (warm_up_counter self + 1)%Z else warm_up_counter self) /\
  (wu = false ->
   Forall (fun s => warm_up_counter s = 0%Z)
          (trace (__init__ vm w md wu wi name) calls)).
Proof.
  split; [done|]. split; [|split].
  - pose proof (trace_bounds (__init__ vm w md wu wi name) calls) as Hb.
    pose proof (trace_warm_iter (__init__ vm w md wu wi name) calls) as Hi.
    simpl in Hb, Hi. specialize (Hb ltac:(lia)).
    rewrite Forall_forall in *. intros s Hs.
    specialize (Hb s Hs). specialize (Hi s Hs). by rewrite Hi in Hb.
  - intros self p g. rewrite forward_state. apply next_counter.
  - intros ->. by apply (trace_no_warm_up (__init__ vm w md false wi name)).
Qed.

(** C9, the claim as stated fails: with [warm_iter = -1] the fresh
    counter 0 is already above [warm_iter]. *)
Lemma warm_up_counter_above_negative_warm_iter :
  warm_up_counter (__init__ true 1 None true (-1) "sigloss") = 0%Z /\
  ~ (0 <= warm_up_counter (__init__ true 1 None true (-1) "sigloss")
       <= warm_iter (__init__ true 1 None true (-1) "sigloss"))%Z.
Proof. simpl. split; [done | lia]. Qed.

End SigLoss_counter.

(** ** Loss: the dispatcher *)

(** C4: a [loss_type] other than "cosine_mse" makes the constructor
    raise [NotImplementedError]; "cosine_mse" gives an instance, and a
    call of that instance on a prediction and a target of one shape
    (B, C, H, W) with at least one channel returns a mapping whose only
    key is "total", bound to the value of [Cosine_MSE].  (On other
    arrays [Cosine_MSE] raises inside the call, and no mapping is
    returned.) *)
Theorem loss_dispatch (loss_type : string) (dim : Z) :
  (loss_type <> "cosine_mse" ->
   Loss.__init__ loss_type dim =
     inl (Loss.NotImplementedError
            ("Loss type " +:+ loss_type +:+ " not implemented"))) /\
  Loss.__init__ "cosine_mse" dim =
    inr {| Loss.dim := dim; Loss.loss_func := Cosine_MSE.__init__ |} /\
  (forall self (B C H W : nat) (pred target : tensor4 R),
     Loss.__init__ "cosine_mse" dim = inr self ->
     has_shape B C H W pred ->
     has_shape B C H W target ->
     (1 <= C)%nat ->
     dom (Loss.__call__ self pred target) = {[ "total" ]} /\
     size (Loss.__call__ self pred target) = 1%nat /\
     Loss.__call__ self pred target !! "total"
       = Some (Cosine_MSE.forward Cosine_MSE.__init__ pred target)).
Proof.
  split; [|split].
  - intros Hne. unfold Loss.__init__. by rewrite decide_False.
  - done.
  - intros self B C H W pred target [= <-] _ _ _. unfold Loss.__call__. simpl.
    split; [apply dom_singleton_L|].
    split; [apply map_size_singleton | apply lookup_singleton_eq].
Qed.

(** C4 at concrete inputs: the identifier "mse" is refused by the
    constructor, and the instance for "cosine_mse" maps a prediction and
    a target of shape (1, 2, 1, 1) to one entry, under "total". *)
Lemma loss_dispatch_witness :
  "mse" <> "cosine_mse" /\
  Loss.__init__ "mse" 384 =
    inl (Loss.NotImplementedError "Loss type mse not implemented") /\
  has_shape 1 2 1 1 [[[[1]]; [[2]]]] /\
  has_shape 1 2 1 1 [[[[1]]; [[3]]]] /\
  (1 <= 2)%nat /\
  dom (Loss.__call__
         {| Loss.dim := 384; Loss.loss_func := Cosine_MSE.__init__ |}
         [[[[1]]; [[2]]]] [[[[1]]; [[3]]]]) = {[ "total" ]} /\
  Loss.__call__
    {| Loss.dim := 384; Loss.loss_func := Cosine_MSE.__init__ |}
    [[[[1]]; [[2]]]] [[[[1]]; [[3]]]] !! "total"
    = Some (Cosine_MSE.forward Cosine_MSE.__init__
              [[[[1]]; [[2]]]] [[[[1]]; [[3]]]]).
Proof.
  assert ("mse" <> "cosine_mse") as Hne by done.
  assert (forall x y : R, has_shape 1 2 1 1 [[[[x]]; [[y]]]]) as Hs
    by (intros; repeat constructor).
  destruct (loss_dispatch "mse" 384) as (Hraise & Hinit & Hcall).
  destruct (Hcall _ 1%nat 2%nat 1%nat 1%nat
              [[[[1]]; [[2]]]] [[[[1]]; [[3]]]] Hinit (Hs _ _) (Hs _ _)
              ltac:(lia)) as (Hdom & _ & Htotal).
  split; [exact Hne|]. split; [exact (Hraise Hne)|].
  split; [apply Hs|]. split; [apply Hs|]. split; [lia|].
  split; [exact Hdom | exact Htotal].
Defined.

(** ** SigLoss: which elements enter the loss *)

Section SigLoss_selection.

Import SigLoss.

Lemma mask_select_filter {A B} (f : B -> bool) (x : tensor4 A) (y : tensor4 B) :
  mask_select x (map4 f y) =
    fst <$> filter (fun p => f (snd p) = true) (zip (flatten4 x) (flatten4 y)).
Proof.
  unfold mask_select. rewrite flatten4_map4.
  generalize (flatten4 x) (flatten4 y). clear x y.
  induction l as [|a l IH]; intros [|b k]; simpl; try done.
  rewrite !filter_cons. simpl.
  destruct (decide (f b = true)); simpl; by rewrite IH.
Qed.

Lemma filter_zip_snd {A B} (f : B -> bool) (l : list A) (k : list B) :
  length l = length k ->
  fst <$> filter (fun p => f (snd p) = true) (zip k k) =
  snd <$> filter (fun p => f (snd p) = true) (zip l k).
Proof.
  revert k. induction l as [|a l IH]; intros [|b k] Hlen; simpl in *; try done.
  rewrite !filter_cons. simpl.
  destruct (decide (f b = true)); simpl; rewrite IH; auto.
Qed.

Lemma valid_spec max_depth t :
  valid max_depth t = true <->
  0 < t /\ match max_depth with Some d => t <= d | None => True end.
Proof.
  unfold valid, Rltb, Rleb. destruct max_depth as [d|].
  - destruct (Rlt_dec 0 t), (Rle_dec t d); simpl; intuition (done || lra).
  - destruct (Rlt_dec 0 t); intuition done.
Qed.

Lemma sigloss_value self input target :
  fst (forward self input target) =
    value_on self (fst (select self input target))
                  (snd (select self input target)).
Proof.
  unfold forward, sigloss, value_on.
  destruct (select self input target) as [i g]. simpl.
  destruct (warm_up self); simpl; [|done].
  by destruct (warm_up_counter self <? warm_iter self)%Z.
Qed.

(** C5: for arrays of one shape, without [valid_mask] the elements
    selected are all elements of [input] and [target]; with [valid_mask]
    they are the pairs at the positions where [target > 0] (and
    [target <= max_depth] when configured), so no kept pair has
    [target <= 0]; the value returned is computed from the selected
    elements. *)
Theorem sigloss_mask_selection
    (self : t) (input target : tensor4 R) :
  same_shape input target ->
  (valid_mask self = false ->
   select self input target = (flatten4 input, flatten4 target)) /\
  (valid_mask self = true ->
   select self input target =
     (fst <$> filter (fun pt => valid (max_depth self) (snd pt) = true)
                     (zip (flatten4 input) (flatten4 target)),
      snd <$> filter (fun pt => valid (max_depth self) (snd pt) = true)
                     (zip (flatten4 input) (flatten4 target)))) /\
  (forall p d,
     (p, d) ∈ filter (fun pt => valid (max_depth self) (snd pt) = true)
                     (zip (flatten4 input) (flatten4 target)) <->
     (p, d) ∈ zip (flatten4 input) (flatten4 target) /\
     0 < d /\
     match max_depth self with Some m => d <= m | None => True end) /\
  (forall p d,
     (p, d) ∈ filter (fun pt => valid (max_depth self) (snd pt) = true)
                     (zip (flatten4 input) (flatten4 target)) ->
     ~ d <= 0) /\
  fst (forward self input target) =
    value_on self (fst (select self input target))
                  (snd (select self input target)).
Proof.
  intros Hshape. apply same_shape_numel in Hshape. unfold numel in Hshape.
  assert (forall p d,
     (p, d) ∈ filter (fun pt => valid (max_depth self) (snd pt) = true)
                     (zip (flatten4 input) (flatten4 target)) <->
     (p, d) ∈ zip (flatten4 input) (flatten4 target) /\
     0 < d /\
     match max_depth self with Some m => d <= m | None => True end) as Hin.
  { intros p d. rewrite list_elem_of_filter. simpl. rewrite valid_spec. tauto. }
  split; [|split; [|split; [|split]]].
  - intros Hv. unfold select. by rewrite Hv.
  - intros Hv. unfold select. rewrite Hv.
    rewrite !mask_select_filter. f_equal. by apply filter_zip_snd.
  - exact Hin.
  - intros p d Hpd. apply Hin in Hpd as (_ & Hd & _). lra.
  - apply sigloss_value.
Qed.

(** C5 at a concrete pair: one valid and one invalid target element. *)
Lemma sigloss_mask_selection_witness :
  same_shape [[[[5; 7]]]] [[[[0; 2]]]] /\
  SigLoss.select (SigLoss.__init__ true 1 None false 100 "sigloss")
                 [[[[5; 7]]]] [[[[0; 2]]]] =
    (fst <$> filter (fun pt => valid None (snd pt) = true) [(5, 0); (7, 2)],
     snd <$> filter (fun pt => valid None (snd pt) = true) [(5, 0); (7, 2)]).
Proof.
  split; [reflexivity|].
  exact (proj1 (proj2 (sigloss_mask_selection
                         (SigLoss.__init__ true 1 None false 100 "sigloss")
                         [[[[5; 7]]]] [[[[0; 2]]]] eq_refl)) eq_refl).
Defined.

End SigLoss_selection.

(** ** Slices and strides, by index *)

Lemma every_from_lookup {A} (k skip : nat) (l : list A) (i : nat) :
  (0 < k)%nat ->
  every_from k skip l !! i = l !! (skip + i * k)%nat.
Proof.
  intros Hk. revert skip i.
  induction l as [|x l IH]; intros skip i; [done|].
  destruct skip as [|s]; simpl.
  - destruct i as [|i]; simpl; [done|].
    rewrite IH. destruct k as [|k]; [lia|]. simpl.
    f_equal. lia.
  - apply IH.
Qed.

Lemma every_lookup {A} (k : nat) (l : list A) (i : nat) :
  (0 < k)%nat -> every k l !! i = l !! (i * k)%nat.
Proof. intros Hk. unfold every. by rewrite every_from_lookup. Qed.

Lemma every_from_fmap {A B} (f : A -> B) (k skip : nat) (l : list A) :
  every_from k skip (f <$> l) = f <$> every_from k skip l.
Proof.
  revert skip. induction l as [|x l IH]; intros skip; [done|].
  destruct skip; csimpl; by rewrite IH.
Qed.

Lemma every_from_Forall {A} (P : A -> Prop) (k skip : nat) (l : list A) :
  Forall P l -> Forall P (every_from k skip l).
Proof.
  intros H. revert skip. induction H as [|x l Hx Hl IH]; intros skip; simpl.
  - constructor.
  - destruct skip; [constructor|]; auto.
Qed.

Lemma every_from_length_eq {A B} (k skip : nat) (l : list A) (l' : list B) :
  length l = length l' ->
  length (every_from k skip l) = length (every_from k skip l').
Proof.
  revert skip l'. induction l as [|x l IH]; intros skip [|y l'] Hlen;
    simpl in *; try done.
  destruct skip; simpl; auto.
Qed.

Lemma every_nonempty {A} (k : nat) (l : list A) :
  (0 < length l)%nat -> (0 < length (every k l))%nat.
Proof. destruct l; simpl; lia. Qed.

(** Case analysis on every list lookup left in the goal. *)
Ltac all_lookups :=
  repeat match goal with
         | |- context [?l !! ?i] => destruct (l !! i); simpl
         end.

Ltac all_get4 :=
  repeat match goal with
         | |- context [get4 ?t ?b ?c ?h ?w] =>
             destruct (get4 t b c h w); simpl
         end.

Lemma get4_map4 {A B} (f : A -> B) (t : tensor4 A) (b c h w : nat) :
  get4 (map4 f t) b c h w = f <$> get4 t b c h w.
Proof.
  unfold get4, map4. rewrite list_lookup_fmap.
  destruct (_ !! b) as [x|]; simpl; [|done].
  rewrite list_lookup_fmap. destruct (x !! c) as [y|]; simpl; [|done].
  rewrite list_lookup_fmap. destruct (y !! h) as [z|]; simpl; [|done].
  by rewrite list_lookup_fmap.
Qed.

Lemma get4_zip4 {A B C} (f : A -> B -> C) (t : tensor4 A) (u : tensor4 B)
    (b c h w : nat) :
  get4 (zip4 f t u) b c h w =
    x ← get4 t b c h w; y ← get4 u b c h w; Some (f x y).
Proof.
  unfold get4, zip4. rewrite lookup_zip_with.
  destruct ((t : list _) !! b) as [t1|]; simpl; [|done].
  destruct ((u : list _) !! b) as [u1|]; simpl; [|by all_lookups].
  rewrite lookup_zip_with.
  destruct (t1 !! c) as [t2|]; simpl; [|done].
  destruct (u1 !! c) as [u2|]; simpl; [|by all_lookups].
  rewrite lookup_zip_with.
  destruct (t2 !! h) as [t3|]; simpl; [|done].
  destruct (u2 !! h) as [u3|]; simpl; [|by all_lookups].
  by rewrite lookup_zip_with.
Qed.

Lemma get4_stride_hw {A} (k : nat) (t : tensor4 A) (b c h w : nat) :
  (0 < k)%nat ->
  get4 (stride_hw k t) b c h w = get4 t b c (h * k) (w * k).
Proof.
  intros Hk. unfold get4, stride_hw. rewrite list_lookup_fmap.
  destruct (_ !! b) as [x|]; simpl; [|done].
  rewrite list_lookup_fmap. destruct (x !! c) as [y|]; simpl; [|done].
  rewrite list_lookup_fmap, every_lookup by done.
  destruct (y !! (h * k)%nat) as [z|]; simpl; [|done].
  by apply every_lookup.
Qed.

Lemma get4_axis0_2_ {A} (t : tensor4 A) (b c h w : nat) :
  get4 (axis0_2_ t) b c h w = get4 t (b + 2) c h w.
Proof.
  unfold get4, axis0_2_, slice_2_. rewrite lookup_drop.
  by replace (2 + b)%nat with (b + 2)%nat by lia.
Qed.

Lemma get4_axis0_0_m2 {A} (t : tensor4 A) (b c h w : nat) :
  get4 (axis0_0_m2 t) b c h w =
    if decide (b + 2 < length t)%nat then get4 t b c h w else None.
Proof.
  unfold get4, axis0_0_m2, slice_0_m2.
  case_decide.
  - by rewrite lookup_take_lt by lia.
  - by rewrite lookup_take_ge by lia.
Qed.

Lemma get4_length {A} (t : tensor4 A) (b c h w : nat) :
  is_Some (get4 t b c h w) -> (b < length t)%nat.
Proof.
  unfold get4. intros [x Hx].
  destruct (_ !! b) as [y|] eqn:Hb; [|done].
  by apply lookup_lt_Some in Hb.
Qed.

Lemma stride_hw_map4 {A B} (f : A -> B) (k : nat) (t : tensor4 A) :
  stride_hw k (map4 f t) = map4 f (stride_hw k t).
Proof.
  unfold stride_hw, map4, every.
  rewrite <- !list_fmap_compose. apply list_fmap_ext. intros _ image _. simpl.
  rewrite <- !list_fmap_compose. apply list_fmap_ext. intros _ m _. simpl.
  rewrite every_from_fmap, <- !list_fmap_compose.
  apply list_fmap_ext. intros _ r _. simpl.
  by rewrite every_from_fmap.
Qed.

Lemma stride_hw_same_shape {A B} (k : nat) (t : tensor4 A) (u : tensor4 B) :
  same_shape t u -> same_shape (stride_hw k t) (stride_hw k u).
Proof.
  unfold same_shape. intros H. by rewrite <- !stride_hw_map4, H.
Qed.

(** ** GradientLoss: scales, normalizer, sum *)

Section GradientLoss_scales.

Import GradientLoss.

Lemma rsum_b2r {A} (f : A -> bool) (l : list A) :
  rsum ((fun x => b2r (f x)) <$> l)
    = INR (length (filter (fun x => f x = true) l)).
Proof.
  induction l as [|x l IH]; csimpl; [done|].
  rewrite filter_cons, IH.
  destruct (decide (f x = true)) as [Hx|Hx].
  - rewrite Hx. simpl length. rewrite S_INR. simpl. lra.
  - apply not_true_is_false in Hx. rewrite Hx. simpl. lra.
Qed.

Lemma normalizer_count self input target :
  normalizer self input target =
    INR (if valid_mask self
         then length (filter (fun x => valid (max_depth self) x = true)
                             (flatten4 target))
         else numel input).
Proof.
  unfold normalizer, mask. destruct (valid_mask self); [|done].
  by rewrite flatten4_map4, rsum_b2r.
Qed.

Lemma scales_eq input target :
  scales input target =
    [ (input, target);
      (stride_hw 2 input, stride_hw 2 target);
      (stride_hw 4 input, stride_hw 4 target);
      (stride_hw 6 input, stride_hw 6 target) ].
Proof. reflexivity. Qed.

Lemma gradientloss_unfold self input target :
  gradientloss self input target =
    xadd (xadd (xadd (xadd (Some 0)
      (scale_term self input target))
      (scale_term self (stride_hw 2 input) (stride_hw 2 target)))
      (scale_term self (stride_hw 4 input) (stride_hw 4 target)))
      (scale_term self (stride_hw 6 input) (stride_hw 6 target)).
Proof. reflexivity. Qed.

(** C3: [forward] is [loss_weight] times the sum, from 0, of the terms
    of exactly four pairs: the arrays themselves and their subsamples
    with steps 2, 4 and 6 along height and width (element [h, w] of a
    subsample with step [k] is element [h * k, w * k] of the array, and
    subsampling keeps the two shapes equal); a term is
    [(sum h_gradient + sum v_gradient) / N], and [N] is the number of
    valid target elements under [valid_mask] and the number of elements
    otherwise. *)
Theorem gradientloss_four_scales (self : t) (input target : tensor4 R) :
  forward self input target =
    xmul (Some (loss_weight self))
      (xadd (xadd (xadd (xadd (Some 0)
        (scale_term self input target))
        (scale_term self (stride_hw 2 input) (stride_hw 2 target)))
        (scale_term self (stride_hw 4 input) (stride_hw 4 target)))
        (scale_term self (stride_hw 6 input) (stride_hw 6 target))) /\
  length (scales input target) = 4%nat /\
  (forall (k : nat) (x : tensor4 R) b c h w,
     (0 < k)%nat ->
     get4 (stride_hw k x) b c h w = get4 x b c (h * k) (w * k)) /\
  (forall k : nat,
     same_shape input target ->
     same_shape (stride_hw k input) (stride_hw k target)) /\
  (forall i g,
     scale_term self i g =
       xdiv (xadd (tsum (h_gradient self i g)) (tsum (v_gradient self i g)))
            (Some (normalizer self i g))) /\
  (forall i g,
     same_shape i g ->
     normalizer self i g =
       INR (if valid_mask self
            then length (filter (fun x => valid (max_depth self) x = true)
                                (flatten4 g))
            else numel g)).
Proof.
  repeat split.
  - intros k x b c h w Hk. by apply get4_stride_hw.
  - intros k. apply stride_hw_same_shape.
  - intros i g Hs. rewrite normalizer_count.
    by rewrite (same_shape_numel i g Hs).
Qed.

End GradientLoss_scales.

(** ** GradientLoss: which axes the two gradients run along *)

Section GradientLoss_axes.

Import GradientLoss.

(** No batch entry has a channel. *)
Local Abbreviation no_channels := (Forall (fun image => image = [])).

Lemma axis1_2_short {A} (x : tensor4 A) :
  Forall (fun image => (length image <= 2)%nat) x -> no_channels (axis1_2_ x).
Proof.
  intros H. unfold axis1_2_, slice_2_. apply Forall_fmap.
  eapply Forall_impl; [exact H|]. simpl. intros image Hlen.
  by destruct image as [|? [|? [|? ?]]]; simpl in *; try lia.
Qed.

Lemma zip4_no_channels_r {A B C} (f : A -> B -> C) (x : tensor4 A) (y : tensor4 B) :
  no_channels y -> no_channels (zip4 f x y).
Proof.
  unfold zip4. intros H. revert x.
  induction H as [|image y -> _ IH]; intros [|a x]; simpl; try constructor.
  - by rewrite zip_with_nil_r.
  - apply IH.
Qed.

Lemma map4_no_channels {A B} (f : A -> B) (x : tensor4 A) :
  no_channels x -> no_channels (map4 f x).
Proof.
  unfold map4. intros H. apply Forall_fmap.
  eapply Forall_impl; [exact H|]. by intros image ->.
Qed.

Lemma flatten4_no_channels {A} (x : tensor4 A) :
  no_channels x -> flatten4 x = [].
Proof.
  unfold flatten4. induction 1 as [|image x -> _ IH]; simpl; [done|].
  exact IH.
Qed.

Lemma mask_channels self target (n : nat) :
  Forall (fun image => (length image <= n)%nat) target ->
  Forall (fun image => (length image <= n)%nat) (mask self target).
Proof.
  intros H. unfold mask, map4.
  destruct (valid_mask self); apply Forall_fmap;
    (eapply Forall_impl; [exact H|]); simpl; intros image Hlen;
    by rewrite length_fmap.
Qed.

Lemma h_gradient_empty self input target :
  Forall (fun image => (length image <= 2)%nat) target ->
  flatten4 (h_gradient self input target) = [].
Proof.
  intros H. unfold h_gradient.
  apply flatten4_no_channels, zip4_no_channels_r, map4_no_channels,
    zip4_no_channels_r, axis1_2_short.
  by apply mask_channels.
Qed.

Lemma v_gradient_no_batch_pair self input target :
  (length target <= 2)%nat ->
  flatten4 (v_gradient self input target) = [].
Proof.
  intros H. unfold v_gradient.
  assert (axis0_2_ (mask self target) = []) as ->.
  { unfold axis0_2_, slice_2_, mask, map4.
    destruct (valid_mask self);
      by destruct target as [|? [|? [|? ?]]]; simpl in *; try lia. }
  assert (forall {A B C} (f : A -> B -> C) (x : tensor4 A),
            zip4 f x [] = []) as Hz.
  { intros. unfold zip4. apply zip_with_nil_r. }
  by rewrite !Hz.
Qed.

Lemma v_gradient_get4 self input target (b c h w : nat) :
  get4 (v_gradient self input target) b c h w =
    d ← get4 (log_d_diff self input target) b c h w;
    d' ← get4 (log_d_diff self input target) (b + 2) c h w;
    m ← get4 (mask self target) b c h w;
    m' ← get4 (mask self target) (b + 2) c h w;
    Some (xmul (xabs (xsub d d')) (Some (m * m'))).
Proof.
  unfold v_gradient.
  rewrite get4_zip4, !get4_map4, !get4_zip4, !get4_axis0_2_, !get4_axis0_0_m2.
  destruct (get4 (log_d_diff self input target) (b + 2) c h w) as [d'|] eqn:Hd';
    [|by repeat case_decide; all_get4].
  destruct (get4 (mask self target) (b + 2) c h w) as [m'|] eqn:Hm';
    [|by repeat case_decide; all_get4].
  pose proof (get4_length _ _ _ _ _ (mk_is_Some _ _ Hd')).
  pose proof (get4_length _ _ _ _ _ (mk_is_Some _ _ Hm')).
  rewrite !decide_True by done.
  destruct (get4 (log_d_diff self input target) b c h w) as [d|]; simpl; [|done].
  by destruct (get4 (mask self target) b c h w) as [m|].
Qed.

Lemma xadd_0_l (a : xreal) : xadd (Some 0) a = a.
Proof. destruct a as [x|]; simpl; [|done]. f_equal. lra. Qed.

Lemma stride_hw_channels {A} (k n : nat) (x : tensor4 A) :
  Forall (fun image => (length image <= n)%nat) x ->
  Forall (fun image => (length image <= n)%nat) (stride_hw k x).
Proof.
  intros H. unfold stride_hw. apply Forall_fmap.
  eapply Forall_impl; [exact H|]. simpl. intros image Hlen.
  by rewrite length_fmap.
Qed.

Lemma has_shape_channels {A} (B C H W : nat) (x : tensor4 A) :
  has_shape B C H W x -> Forall (fun image => (length image <= C)%nat) x.
Proof.
  intros [_ Hx]. eapply Forall_impl; [exact Hx|]. simpl. intros image [-> _]. lia.
Qed.

End GradientLoss_axes.

(** ** Element-wise facts *)

Lemma Forall_zip_with_2 {A B C} (P : A -> Prop) (Q : B -> Prop) (S : C -> Prop)
    (f : A -> B -> C) (l : list A) (k : list B) :
  (forall a b, P a -> Q b -> S (f a b)) ->
  Forall P l -> Forall Q k -> Forall S (zip_with f l k).
Proof.
  intros Hf Hl. revert k.
  induction Hl as [|a l Ha Hl IH]; intros k Hk; simpl; [constructor|].
  destruct Hk as [|b k Hb Hk]; constructor; auto.
Qed.

Lemma Forall4_zip4 {A B C} (P : A -> Prop) (Q : B -> Prop) (S : C -> Prop)
    (f : A -> B -> C) (x : tensor4 A) (y : tensor4 B) :
  (forall a b, P a -> Q b -> S (f a b)) ->
  Forall4 P x -> Forall4 Q y -> Forall4 S (zip4 f x y).
Proof.
  intros Hf. unfold Forall4, zip4.
  apply Forall_zip_with_2. intros ? ?.
  apply Forall_zip_with_2. intros ? ?.
  apply Forall_zip_with_2. intros ? ?.
  by apply Forall_zip_with_2.
Qed.

Lemma Forall4_map4 {A B} (P : A -> Prop) (Q : B -> Prop)
    (f : A -> B) (x : tensor4 A) :
  (forall a, P a -> Q (f a)) -> Forall4 P x -> Forall4 Q (map4 f x).
Proof.
  intros Hf. unfold Forall4, map4. intros Hx.
  apply Forall_fmap. eapply Forall_impl; [exact Hx|]. simpl. intros ? H1.
  apply Forall_fmap. eapply Forall_impl; [exact H1|]. simpl. intros ? H2.
  apply Forall_fmap. eapply Forall_impl; [exact H2|]. simpl. intros ? H3.
  apply Forall_fmap. eapply Forall_impl; [exact H3|]. done.
Qed.

Lemma Forall4_flatten4 {A} (P : A -> Prop) (x : tensor4 A) :
  Forall4 P x -> Forall P (flatten4 x).
Proof.
  unfold Forall4, flatten4. intros Hx.
  by rewrite !Forall_concat.
Qed.

Lemma Forall4_stride_hw {A} (P : A -> Prop) (k : nat) (x : tensor4 A) :
  Forall4 P x -> Forall4 P (stride_hw k x).
Proof.
  unfold Forall4, stride_hw, every. intros Hx.
  apply Forall_fmap. eapply Forall_impl; [exact Hx|]. simpl. intros ? H1.
  apply Forall_fmap. eapply Forall_impl; [exact H1|]. simpl. intros ? H2.
  apply Forall_fmap. apply every_from_Forall.
  eapply Forall_impl; [exact H2|]. simpl. intros ? H3.
  by apply every_from_Forall.
Qed.

Lemma Forall4_axis0 {A} (P : A -> Prop) (x : tensor4 A) :
  Forall4 P x -> Forall4 P (axis0_0_m2 x) /\ Forall4 P (axis0_2_ x).
Proof.
  unfold Forall4, axis0_0_m2, axis0_2_, slice_0_m2, slice_2_. intros Hx.
  split; [by apply Forall_take | by apply Forall_drop].
Qed.

Lemma Forall4_axis1 {A} (P : A -> Prop) (x : tensor4 A) :
  Forall4 P x -> Forall4 P (axis1_0_m2 x) /\ Forall4 P (axis1_2_ x).
Proof.
  unfold Forall4, axis1_0_m2, axis1_2_, slice_0_m2, slice_2_. intros Hx.
  split; apply Forall_fmap; (eapply Forall_impl; [exact Hx|]); simpl;
    intros ? H1; [by apply Forall_take | by apply Forall_drop].
Qed.

Lemma Forall4_True {A} (x : tensor4 A) : Forall4 (fun _ => True) x.
Proof.
  unfold Forall4.
  apply Forall_true; intros ?.
  apply Forall_true; intros ?.
  apply Forall_true; intros ?.
  by apply Forall_true.
Qed.

Lemma zip4_diag {A B C D} (f : B -> C -> D) (g : A -> B) (g' : A -> C)
    (x : tensor4 A) :
  zip4 f (map4 g x) (map4 g' x) = map4 (fun v => f (g v) (g' v)) x.
Proof.
  unfold zip4, map4.
  assert (forall {A B C D} (f : B -> C -> D) (g : A -> B) (g' : A -> C)
            (l : list A),
            zip_with f (g <$> l) (g' <$> l) = (fun v => f (g v) (g' v)) <$> l)
    as Hz.
  { intros. induction l; csimpl; [done|]. by f_equal. }
  rewrite Hz. apply list_fmap_ext. intros _ ? _.
  rewrite Hz. apply list_fmap_ext. intros _ ? _.
  rewrite Hz. apply list_fmap_ext. intros _ ? _.
  by rewrite Hz.
Qed.

Lemma map4_map4 {A B C} (f : A -> B) (g : B -> C) (x : tensor4 A) :
  map4 g (map4 f x) = map4 (fun v => g (f v)) x.
Proof.
  unfold map4. rewrite <- list_fmap_compose.
  apply list_fmap_ext. intros _ ? _. simpl. rewrite <- list_fmap_compose.
  apply list_fmap_ext. intros _ ? _. simpl. rewrite <- list_fmap_compose.
  apply list_fmap_ext. intros _ ? _. simpl. by rewrite <- list_fmap_compose.
Qed.

Lemma Forall4_of_map4 {A B} (P : A -> Prop) (Q : B -> Prop)
    (f : A -> B) (x : tensor4 A) :
  Forall4 P x -> (forall a, P a -> Q (f a)) -> Forall4 Q (map4 f x).
Proof. intros Hx Hf. by eapply Forall4_map4. Qed.

Lemma xsum_zero (l : list xreal) :
  Forall (fun v => v = Some 0) l -> xsum l = Some 0.
Proof.
  induction 1 as [|v l -> _ IH]; [done|].
  change (xsum (Some 0 :: l)) with (xadd (Some 0) (xsum l)).
  rewrite IH. simpl. f_equal. lra.
Qed.

Lemma tsum_zero (x : tensor4 xreal) :
  Forall4 (fun v => v = Some 0) x -> tsum x = Some 0.
Proof. intros Hx. apply xsum_zero. by apply Forall4_flatten4. Qed.

Lemma rsum_ones (l : list R) :
  Forall (fun v => v = 1) l -> rsum l = INR (length l).
Proof.
  induction 1 as [|v l -> _ IH]; [done|].
  simpl rsum. rewrite IH. simpl length. rewrite S_INR. lra.
Qed.

(** ** Shapes *)

Lemma length_concat_uniform {A} (n : nat) (ls : list (list A)) :
  Forall (fun l => length l = n) ls ->
  length (concat ls) = (length ls * n)%nat.
Proof.
  induction 1 as [|l ls Hl _ IH]; simpl; [done|].
  rewrite length_app, IH, Hl. lia.
Qed.

Lemma has_shape_numel {A} (B C H W : nat) (x : tensor4 A) :
  has_shape B C H W x -> numel x = (B * C * H * W)%nat.
Proof.
  intros [HB Hx]. unfold numel, flatten4.
  rewrite (length_concat_uniform W).
  - rewrite (length_concat_uniform H).
    + rewrite (length_concat_uniform C), HB; [done|].
      eapply Forall_impl; [exact Hx|]. by intros ? [? _].
    + apply Forall_concat. eapply Forall_impl; [exact Hx|].
      intros ? [_ Hc]. eapply Forall_impl; [exact Hc|]. by intros ? [? _].
  - apply Forall_concat, Forall_concat. eapply Forall_impl; [exact Hx|].
    intros ? [_ Hc]. eapply Forall_impl; [exact Hc|]. by intros ? [_ ?].
Qed.

Lemma every_length {A} (k : nat) (l : list A) :
  length (every k l) = strided_length k (length l).
Proof.
  unfold strided_length, every. apply every_from_length_eq.
  by rewrite length_replicate.
Qed.

Lemma strided_length_pos (k n : nat) :
  (0 < n)%nat -> (0 < strided_length k n)%nat.
Proof.
  intros Hn. unfold strided_length. apply every_nonempty.
  by rewrite length_replicate.
Qed.

Lemma has_shape_stride_hw {A} (k B C H W : nat) (x : tensor4 A) :
  has_shape B C H W x ->
  has_shape B C (strided_length k H) (strided_length k W) (stride_hw k x).
Proof.
  intros [HB Hx]. unfold has_shape, stride_hw. split.
  - by rewrite length_fmap.
  - apply Forall_fmap. eapply Forall_impl; [exact Hx|]. simpl.
    intros image [HC Hc]. split; [by rewrite length_fmap|].
    apply Forall_fmap. eapply Forall_impl; [exact Hc|]. simpl.
    intros m [HH Hm]. split.
    + by rewrite length_fmap, every_length, HH.
    + apply Forall_fmap, every_from_Forall.
      eapply Forall_impl; [exact Hm|]. simpl.
      intros r HW. by rewrite every_length, HW.
Qed.

Lemma has_shape_positive_numel {A} (B C H W : nat) (x : tensor4 A) :
  has_shape B C H W x ->
  (0 < B)%nat -> (0 < C)%nat -> (0 < H)%nat -> (0 < W)%nat ->
  (0 < numel x)%nat.
Proof.
  intros Hx ? ? ? ?. rewrite (has_shape_numel _ _ _ _ _ Hx).
  repeat apply Nat.mul_pos_pos; done.
Qed.

(** ** Arithmetic on computed values *)

Lemma Rltb_true (x y : R) : x < y -> Rltb x y = true.
Proof. intros H. unfold Rltb. by destruct (Rlt_dec x y). Qed.

Lemma Rltb_false (x y : R) : y <= x -> Rltb x y = false.
Proof. intros H. unfold Rltb. destruct (Rlt_dec x y); [lra | done]. Qed.

Lemma Rleb_true (x y : R) : x <= y -> Rleb x y = true.
Proof. intros H. unfold Rleb. by destruct (Rle_dec x y). Qed.

Lemma Req_zero_false (x : R) : x <> 0 -> Req_zero x = false.
Proof. intros H. unfold Req_zero. by destruct (Req_dec_T x 0). Qed.

Lemma Req_zero_true : Req_zero 0 = true.
Proof. unfold Req_zero. by destruct (Req_dec_T 0 0). Qed.

Lemma rlog_pos (x : R) : 0 < x -> rlog x = Some (ln x).
Proof. intros H. unfold rlog. by rewrite Rltb_true. Qed.

Lemma xdiv_zero (n : R) : n <> 0 -> xdiv (Some 0) (Some n) = Some 0.
Proof.
  intros H. simpl. rewrite Req_zero_false by done. f_equal.
  unfold Rdiv. lra.
Qed.


Lemma valid_pos (max_depth : option R) (v : R) :
  valid max_depth v = true -> 0 < v.
Proof.
  unfold valid, Rltb. destruct max_depth;
    destruct (Rlt_dec 0 v); simpl; done.
Qed.

Lemma INR_pos_ne (n : nat) : (0 < n)%nat -> INR n <> 0.
Proof. intros H. apply not_0_INR. lia. Qed.

(** ** GradientLoss on equal, valid arrays *)

Section GradientLoss_zero.

Import GradientLoss.

Variable self : t.
Hypothesis eps_nonneg : 0 <= eps self.

Lemma log_d_diff_equal (x : tensor4 R) :
  Forall4 (fun v => 0 < v) x ->
  Forall4 (fun d => d = Some 0) (log_d_diff self x x).
Proof.
  intros Hx. unfold log_d_diff, input_log, target_log, log_operand.
  rewrite map4_map4, zip4_diag.
  eapply Forall4_zip4 with (P := fun d => d = Some 0) (Q := is_Some).
  - intros ? ? -> [m ->]. simpl. f_equal. lra.
  - eapply Forall4_map4; [|exact Hx]. simpl. intros v Hv.
    rewrite rlog_pos by lra. simpl. f_equal. lra.
  - eapply Forall4_map4; [|apply Forall4_True]. by eexists.
Qed.

Lemma masked_gradient_zero (g : tensor4 xreal) (m : tensor4 R) :
  Forall4 (fun d => d = Some 0) g ->
  Forall4 (fun d => d = Some 0) (zip4 xmul (map4 xabs g) (map4 Some m)).
Proof.
  intros Hg.
  eapply Forall4_zip4 with (P := fun d => d = Some 0) (Q := is_Some).
  - intros ? ? -> [r ->]. simpl. f_equal. lra.
  - eapply Forall4_map4; [|exact Hg]. intros ? ->. simpl.
    by rewrite Rabs_R0.
  - eapply Forall4_map4; [|apply Forall4_True]. by eexists.
Qed.

Lemma difference_zero (g g' : tensor4 xreal) :
  Forall4 (fun d => d = Some 0) g ->
  Forall4 (fun d => d = Some 0) g' ->
  Forall4 (fun d => d = Some 0) (zip4 xsub g g').
Proof.
  intros Hg Hg'. eapply Forall4_zip4; [|exact Hg|exact Hg'].
  intros ? ? -> ->. simpl. f_equal. lra.
Qed.

Lemma gradients_equal (x : tensor4 R) :
  Forall4 (fun v => 0 < v) x ->
  tsum (h_gradient self x x) = Some 0 /\ tsum (v_gradient self x x) = Some 0.
Proof.
  intros Hx. pose proof (log_d_diff_equal x Hx) as Hd.
  destruct (Forall4_axis0 _ _ Hd), (Forall4_axis1 _ _ Hd).
  split; apply tsum_zero; unfold h_gradient, v_gradient;
    by apply masked_gradient_zero, difference_zero.
Qed.

Lemma normalizer_all_valid (x : tensor4 R) :
  Forall4 (fun v => valid (max_depth self) v = true) x ->
  normalizer self x x = INR (numel x).
Proof.
  intros Hx. unfold normalizer, mask. destruct (valid_mask self); [|done].
  rewrite rsum_ones.
  - fold (numel (map4 (fun v => b2r (valid (max_depth self) v)) x)).
    by rewrite numel_map4.
  - apply Forall4_flatten4. eapply Forall4_map4; [|exact Hx].
    by intros v ->.
Qed.

Lemma scale_term_equal (x : tensor4 R) :
  Forall4 (fun v => valid (max_depth self) v = true) x ->
  (0 < numel x)%nat ->
  scale_term self x x = Some 0.
Proof.
  intros Hx Hn. unfold scale_term.
  assert (Forall4 (fun v => 0 < v) x) as Hpos.
  { unfold Forall4 in *.
    repeat (eapply Forall_impl; [eassumption|]; simpl; intros ? ?).
    by eapply valid_pos. }
  destruct (gradients_equal x Hpos) as [-> ->].
  rewrite normalizer_all_valid by done.
  rewrite xadd_0_l. by apply xdiv_zero, INR_pos_ne.
Qed.

Lemma gradientloss_equal (B C H W : nat) (x : tensor4 R) :
  has_shape B C H W x ->
  (0 < B)%nat -> (0 < C)%nat -> (0 < H)%nat -> (0 < W)%nat ->
  Forall4 (fun v => valid (max_depth self) v = true) x ->
  forward self x x = Some 0.
Proof.
  intros Hs HB HC HH HW Hx.
  assert (forall k, scale_term self (stride_hw k x) (stride_hw k x) = Some 0)
    as Hk.
  { intros k. apply scale_term_equal; [by apply Forall4_stride_hw|].
    eapply has_shape_positive_numel;
      [by apply has_shape_stride_hw| | | |];
      try done; by apply strided_length_pos. }
  unfold forward. rewrite gradientloss_unfold.
  rewrite !Hk, scale_term_equal;
    [| done | by eapply has_shape_positive_numel].
  simpl. f_equal. lra.
Qed.

End GradientLoss_zero.

(** ** SigLoss: the warm-up schedule *)

Section SigLoss_schedule.

Import SigLoss.

Lemma valid_eq (max_depth : option R) (d : R) :
  valid max_depth d =
    Rltb 0 d && match max_depth with Some m => Rleb d m | None => true end.
Proof. destruct max_depth; simpl; [done | by rewrite andb_true_r]. Qed.

Lemma select_pairs self (input target : tensor4 R) :
  same_shape input target ->
  select self input target =
    (fst <$> spec_pairs (valid_mask self) (max_depth self) input target,
     snd <$> spec_pairs (valid_mask self) (max_depth self) input target).
Proof.
  intros Hshape. apply same_shape_numel in Hshape. unfold numel in Hshape.
  unfold select, spec_pairs. destruct (valid_mask self).
  - rewrite !mask_select_filter.
    rewrite (filter_zip_snd _ (flatten4 input)) by done.
    rewrite (list_filter_iff
               (fun pt : R * R => valid (max_depth self) (snd pt) = true)
               (fun pd : R * R =>
                  Rltb 0 (snd pd) &&
                  match max_depth self with
                  | Some m => Rleb (snd pd) m
                  | None => true
                  end = true));
      [done|].
    intros [p d]. simpl. by rewrite valid_eq.
  - by rewrite fst_zip, snd_zip by lia.
Qed.

Lemma log_diff_pairs self (pairs : list (R * R)) :
  log_diff self (fst <$> pairs) (snd <$> pairs) =
    (fun pd => if Rltb 0 (fst pd + eps self) && Rltb 0 (snd pd + eps self)
               then Some (ln (fst pd + eps self) - ln (snd pd + eps self))
               else None) <$> pairs.
Proof.
  unfold log_diff, log_operand.
  induction pairs as [|[p d] pairs IH]; csimpl; [done|].
  f_equal; [|exact IH]. unfold rlog.
  by destruct (Rltb 0 (p + eps self)), (Rltb 0 (d + eps self)).
Qed.

Lemma sigloss_log_diff self (input target : tensor4 R) :
  same_shape input target ->
  log_diff self (fst (select self input target))
                (snd (select self input target)) =
    spec_g (eps self) (valid_mask self) (max_depth self) input target.
Proof.
  intros Hshape. rewrite select_pairs by done. simpl.
  apply log_diff_pairs.
Qed.

Lemma warm_up_value_spec self (input target : tensor4 R) :
  same_shape input target ->
  warm_up_value self input target =
    xmul (Some (loss_weight self))
      (xsqrt (xmul (Some 0.15)
                (xsquare (xmean (spec_g (eps self) (valid_mask self)
                                        (max_depth self) input target))))).
Proof.
  intros Hshape. rewrite <- sigloss_log_diff by done.
  unfold warm_up_value. by destruct (select self input target).
Qed.

Lemma full_value_spec self (input target : tensor4 R) :
  same_shape input target ->
  full_value self input target =
    xmul (Some (loss_weight self))
      (xsqrt (xadd (xvar (spec_g (eps self) (valid_mask self)
                                 (max_depth self) input target))
                (xmul (Some 0.15)
                   (xsquare (xmean (spec_g (eps self) (valid_mask self)
                                           (max_depth self) input target)))))).
Proof.
  intros Hshape. rewrite <- sigloss_log_diff by done.
  unfold full_value. by destruct (select self input target).
Qed.

Lemma spec_g_small :
  spec_g 0.001 true None [[[[1; 2; 5]]]] [[[[1; 1; 0]]]] =
    [Some (ln (1 + 0.001) - ln (1 + 0.001));
     Some (ln (2 + 0.001) - ln (1 + 0.001))].
Proof.
  unfold spec_g, spec_pairs.
  change (zip (flatten4 [[[[1; 2; 5]]]]) (flatten4 [[[[1; 1; 0]]]]))
    with [(1, 1); (2, 1); (5, 0)].
  rewrite filter_cons_True by (simpl; by rewrite Rltb_true by lra).
  rewrite filter_cons_True by (simpl; by rewrite Rltb_true by lra).
  rewrite filter_cons_False by (simpl; by rewrite Rltb_false by lra).
  rewrite filter_nil. csimpl. by rewrite !Rltb_true by lra.
Qed.

Lemma sigloss_small_values :
  exists a b,
    xmul (Some 1)
      (xsqrt (xmul (Some 0.15)
         (xsquare (xmean [Some (ln (1 + 0.001) - ln (1 + 0.001));
                          Some (ln (2 + 0.001) - ln (1 + 0.001))]))))
      = Some a /\
    xmul (Some 1)
      (xsqrt (xadd
         (xvar [Some (ln (1 + 0.001) - ln (1 + 0.001));
                Some (ln (2 + 0.001) - ln (1 + 0.001))])
         (xmul (Some 0.15)
            (xsquare (xmean [Some (ln (1 + 0.001) - ln (1 + 0.001));
                             Some (ln (2 + 0.001) - ln (1 + 0.001))])))))
      = Some b /\
    0 < a < b.
Proof.
  assert (0 < ln (2 + 0.001) - ln (1 + 0.001)) as Hc.
  { assert (ln (1 + 0.001) < ln (2 + 0.001)) by (apply ln_increasing; lra).
    lra. }
  replace (ln (1 + 0.001) - ln (1 + 0.001)) with 0 by lra.
  set (c := ln (2 + 0.001) - ln (1 + 0.001)) in *. clearbody c.
  unfold xvar, xmean. csimpl.
  rewrite !Req_zero_false by lra. csimpl.
  rewrite !Req_zero_false by lra. csimpl.
  replace (0.15 * ((0 + (c + 0)) / (1 + 1) * ((0 + (c + 0)) / (1 + 1))))
    with (0.0375 * (c * c)) by lra.
  replace (((0 - (0 + (c + 0)) / (1 + 1)) * (0 - (0 + (c + 0)) / (1 + 1)) +
            ((c - (0 + (c + 0)) / (1 + 1)) * (c - (0 + (c + 0)) / (1 + 1)) +
             0)) / (1 + 1 - 1))
    with (0.5 * (c * c)) by lra.
  assert (0 < c * c) as Hcc by nra.
  rewrite !Rleb_true by lra.
  eexists _, _. split; [done|]. split; [done|].
  rewrite !Rmult_1_l. split.
  - apply sqrt_lt_R0. lra.
  - apply sqrt_lt_1; lra.
Qed.

(** C2: on an instance built with [warm_up = True] and [warm_iter = N],
    [N >= 1], and called on pairs of arrays of one shape, the calls
    number 1 to [N] return [loss_weight * sqrt(0.15 * mean(g)^2)] and
    every later call returns
    [loss_weight * sqrt(var(g) + 0.15 * mean(g)^2)], where [g] holds
    [log(pred + 0.001) - log(target + 0.001)] for every position of the
    call's arrays without [valid_mask], and with it for the positions
    whose target is above 0 (and at most [max_depth] when configured);
    after the calls the counter is [min (number of calls) N]; no call
    lowers the counter, and once it has reached [warm_iter] a call
    returns the second formula and leaves the instance as it is. *)
Theorem sigloss_warm_up_schedule
    (vm : bool) (w : R) (md : option R) (N : Z) (name : string)
    (calls : list (tensor4 R * tensor4 R)) :
  (1 <= N)%Z ->
  Forall (fun call => same_shape (fst call) (snd call)) calls ->
  (forall k depth_pred depth_gt,
     calls !! k = Some (depth_pred, depth_gt) ->
     fst (run (__init__ vm w md true N name) calls) !! k =
       Some (xmul (Some w)
               (xsqrt
                  (if (Z.of_nat k <? N)%Z
                   then xmul (Some 0.15)
                          (xsquare (xmean (spec_g 0.001 vm md
                                                  depth_pred depth_gt)))
                   else xadd (xvar (spec_g 0.001 vm md depth_pred depth_gt))
                          (xmul (Some 0.15)
                             (xsquare (xmean (spec_g 0.001 vm md
                                                     depth_pred depth_gt)))))))) /\
  (forall eps valid_mask max_depth pred target,
     spec_g eps valid_mask max_depth pred target =
       (fun pd => if Rltb 0 (fst pd + eps) && Rltb 0 (snd pd + eps)
                  then Some (ln (fst pd + eps) - ln (snd pd + eps))
                  else None)
         <$> (if valid_mask
              then filter (fun pd => Rltb 0 (snd pd) &&
                                     match max_depth with
                                     | Some m => Rleb (snd pd) m
                                     | None => true
                                     end = true)
                          (zip (flatten4 pred) (flatten4 target))
              else zip (flatten4 pred) (flatten4 target))) /\
  warm_up_counter (snd (run (__init__ vm w md true N name) calls))
    = Z.min (Z.of_nat (length calls)) N /\
  (forall self depth_pred depth_gt,
     (warm_up_counter self
        <= warm_up_counter (snd (forward self depth_pred depth_gt)))%Z) /\
  (forall self depth_pred depth_gt,
     same_shape depth_pred depth_gt ->
     (warm_iter self <= warm_up_counter self)%Z ->
     forward self depth_pred depth_gt =
       (xmul (Some (loss_weight self))
          (xsqrt (xadd (xvar (spec_g (eps self) (valid_mask self)
                                     (max_depth self) depth_pred depth_gt))
                    (xmul (Some 0.15)
                       (xsquare (xmean (spec_g (eps self) (valid_mask self)
                                               (max_depth self)
                                               depth_pred depth_gt)))))),
        self)).
Proof.
  intros HN Hshapes. split; [|split; [|split; [|split]]].
  - intros k p g Hk.
    assert (same_shape p g) as Hshape.
    { by apply (Forall_lookup_1 _ _ _ _ Hshapes Hk). }
    rewrite (run_lookup (__init__ vm w md true N name) calls k p g eq_refl Hk).
    rewrite warm_up_value_spec, full_value_spec by done. simpl.
    rewrite Z.add_0_l. by destruct (Z.of_nat k <? N)%Z.
  - done.
  - rewrite run_counter; simpl; [done | done | lia].
  - apply forward_monotone.
  - intros self p g Hshape Hc.
    rewrite forward_after_warm_up by done. by rewrite full_value_spec.
Qed.

(** C2 at a concrete instance: one warm-up iteration and two calls on
    arrays of three elements, the third with an invalid target.  The
    first call returns the warm-up formula and the second the full
    formula, both over the two valid positions, and the counter stops
    at 1. *)
Lemma sigloss_warm_up_schedule_witness :
  (1 <= 1)%Z /\
  same_shape [[[[1; 2; 5]]]] [[[[1; 1; 0]]]] /\
  fst (run (__init__ true 1 None true 1 "sigloss")
           [([[[[1; 2; 5]]]], [[[[1; 1; 0]]]]);
            ([[[[1; 2; 5]]]], [[[[1; 1; 0]]]])]) !! 0%nat =
    Some (xmul (Some 1)
            (xsqrt (xmul (Some 0.15)
               (xsquare (xmean [Some (ln (1 + 0.001) - ln (1 + 0.001));
                                Some (ln (2 + 0.001) - ln (1 + 0.001))]))))) /\
  fst (run (__init__ true 1 None true 1 "sigloss")
           [([[[[1; 2; 5]]]], [[[[1; 1; 0]]]]);
            ([[[[1; 2; 5]]]], [[[[1; 1; 0]]]])]) !! 1%nat =
    Some (xmul (Some 1)
            (xsqrt (xadd
               (xvar [Some (ln (1 + 0.001) - ln (1 + 0.001));
                      Some (ln (2 + 0.001) - ln (1 + 0.001))])
               (xmul (Some 0.15)
                  (xsquare (xmean [Some (ln (1 + 0.001) - ln (1 + 0.001));
                                   Some (ln (2 + 0.001) - ln (1 + 0.001))])))))) /\
  warm_up_counter
    (snd (run (__init__ true 1 None true 1 "sigloss")
              [([[[[1; 2; 5]]]], [[[[1; 1; 0]]]]);
               ([[[[1; 2; 5]]]], [[[[1; 1; 0]]]])])) = 1%Z /\
  exists a b,
    fst (run (__init__ true 1 None true 1 "sigloss")
             [([[[[1; 2; 5]]]], [[[[1; 1; 0]]]]);
              ([[[[1; 2; 5]]]], [[[[1; 1; 0]]]])])
      = [Some a; Some b] /\
    0 < a < b.
Proof.
  assert (same_shape [[[[1; 2; 5]]]] [[[[1; 1; 0]]]]) as Hshape by reflexivity.
  assert (Forall (fun call : tensor4 R * tensor4 R =>
                    same_shape (fst call) (snd call))
                 [([[[[1; 2; 5]]]], [[[[1; 1; 0]]]]);
                  ([[[[1; 2; 5]]]], [[[[1; 1; 0]]]])]) as Hshapes.
  { apply Forall_cons_2; [exact Hshape|].
    apply Forall_cons_2; [exact Hshape | apply Forall_nil_2]. }
  destruct (sigloss_warm_up_schedule true 1 None 1 "sigloss"
              [([[[[1; 2; 5]]]], [[[[1; 1; 0]]]]);
               ([[[[1; 2; 5]]]], [[[[1; 1; 0]]]])]
              ltac:(lia) Hshapes)
    as (Hvalues & _ & Hcounter & _).
  pose proof (Hvalues 0%nat _ _ eq_refl) as H0.
  pose proof (Hvalues 1%nat _ _ eq_refl) as H1.
  rewrite spec_g_small in H0, H1.
  change (Z.of_nat 0 <? 1)%Z with true in H0.
  change (Z.of_nat 1 <? 1)%Z with false in H1.
  cbv beta iota in H0, H1.
  split; [lia|]. split; [exact Hshape|].
  split; [exact H0|]. split; [exact H1|]. split; [exact Hcounter|].
  destruct sigloss_small_values as (a & b & Ha & Hb & Hab).
  exists a, b. split; [|exact Hab].
  rewrite Ha in H0. rewrite Hb in H1.
  apply (list_eq_same_length _ _ 2%nat); [done | done |].
  intros [|[|i]] x y Hi Hx Hy; [| | lia].
  - injection Hy as <-. congruence.
  - injection Hy as <-. congruence.
Defined.

End SigLoss_schedule.

(** ** SigLoss on equal, valid arrays *)

Section SigLoss_zero.

Import SigLoss.

Lemma xmean_zero (g : list xreal) :
  Forall (fun d => d = Some 0) g -> (0 < length g)%nat -> xmean g = Some 0.
Proof.
  intros Hg Hn. unfold xmean. rewrite xsum_zero by done.
  by apply xdiv_zero, INR_pos_ne.
Qed.






End SigLoss_zero.




(** ** GradientLoss: the axes of the two gradients *)

Section GradientLoss_axes_claims.

Import GradientLoss.

Lemma scale_few_channels self input target :
  Forall (fun image => (length image <= 2)%nat) target ->
  flatten4 (h_gradient self input target) = [] /\
  tsum (h_gradient self input target) = Some 0 /\
  scale_term self input target =
    xdiv (tsum (v_gradient self input target))
         (Some (normalizer self input target)).
Proof.
  intros Hc. pose proof (h_gradient_empty self input target Hc) as Hh.
  split; [done|]. unfold scale_term, tsum. rewrite Hh. simpl xsum.
  split; [done|]. by rewrite xadd_0_l.
Qed.

(** C10: when the channel axis has at most two entries, at each of the
    four scales [h_gradient] has no element, its sum is exactly 0 and the
    term of the scale is [sum v_gradient / N]; the entry [b, c, h, w] of
    [v_gradient] is the masked [|log_d_diff[b] - log_d_diff[b + 2]|] at
    [c, h, w]: it pairs entries two apart along the first (batch) axis. *)
Theorem gradientloss_channel_axis_at_most_2
    (self : t) (B C H W : nat) (input target : tensor4 R) :
  has_shape B C H W input ->
  has_shape B C H W target ->
  (C <= 2)%nat ->
  Forall (fun it =>
            flatten4 (h_gradient self (fst it) (snd it)) = [] /\
            tsum (h_gradient self (fst it) (snd it)) = Some 0 /\
            scale_term self (fst it) (snd it) =
              xdiv (tsum (v_gradient self (fst it) (snd it)))
                   (Some (normalizer self (fst it) (snd it))) /\
            (forall b c h w,
               get4 (v_gradient self (fst it) (snd it)) b c h w =
                 d ← get4 (log_d_diff self (fst it) (snd it)) b c h w;
                 d' ← get4 (log_d_diff self (fst it) (snd it)) (b + 2) c h w;
                 m ← get4 (mask self (snd it)) b c h w;
                 m' ← get4 (mask self (snd it)) (b + 2) c h w;
                 Some (xmul (xabs (xsub d d')) (Some (m * m')))))
         (scales input target).
Proof.
  intros _ Ht HC.
  assert (Forall (fun image => (length image <= 2)%nat) target) as Hc.
  { eapply Forall_impl; [exact (has_shape_channels _ _ _ _ _ Ht)|].
    simpl. intros. lia. }
  assert (forall i g,
            Forall (fun image => (length image <= 2)%nat) g ->
            flatten4 (h_gradient self i g) = [] /\
            tsum (h_gradient self i g) = Some 0 /\
            scale_term self i g =
              xdiv (tsum (v_gradient self i g)) (Some (normalizer self i g)) /\
            (forall b c h w,
               get4 (v_gradient self i g) b c h w =
                 d ← get4 (log_d_diff self i g) b c h w;
                 d' ← get4 (log_d_diff self i g) (b + 2) c h w;
                 m ← get4 (mask self g) b c h w;
                 m' ← get4 (mask self g) (b + 2) c h w;
                 Some (xmul (xabs (xsub d d')) (Some (m * m'))))) as Hscale.
  { intros i g Hg. destruct (scale_few_channels self i g Hg) as (? & ? & ?).
    repeat split; try done. intros. apply v_gradient_get4. }
  rewrite scales_eq.
  repeat (apply Forall_cons_2;
          [apply Hscale; simpl; first [done | by apply stride_hw_channels]|]).
  apply Forall_nil_2.
Qed.

(** C10 at a concrete pair: one channel, three batch entries. *)
Lemma gradientloss_channel_axis_at_most_2_witness :
  has_shape 3 1 1 1 [[[[1]]]; [[[2]]]; [[[3]]]] /\
  (1 <= 2)%nat /\
  Forall (fun it =>
            flatten4 (h_gradient (__init__ true 1 None "loss_grad")
                                 (fst it) (snd it)) = [])
         (scales [[[[1]]]; [[[2]]]; [[[3]]]] [[[[1]]]; [[[2]]]; [[[3]]]]).
Proof.
  assert (has_shape 3 1 1 1 [[[[1]]]; [[[2]]]; [[[3]]]]) as Hs
    by (repeat constructor).
  split; [exact Hs|]. split; [lia|].
  eapply Forall_impl;
    [exact (gradientloss_channel_axis_at_most_2
              (__init__ true 1 None "loss_grad") 3 1 1 1
              [[[[1]]]; [[[2]]]; [[[3]]]] [[[[1]]]; [[[2]]]; [[[3]]]]
              Hs Hs ltac:(lia))|].
  simpl. intros it H. exact (proj1 H).
Defined.

End GradientLoss_axes_claims.

(** ** GradientLoss on a single depth map *)

Section GradientLoss_single_map.

Import GradientLoss.

(** With at most two batch entries and at most two channels neither
    gradient has an element, whatever the prediction is. *)
Lemma scale_term_blind self input target :
  (length target <= 2)%nat ->
  Forall (fun image => (length image <= 2)%nat) target ->
  normalizer self input target <> 0 ->
  scale_term self input target = Some 0.
Proof.
  intros Hb Hc HN.
  destruct (scale_few_channels self input target Hc) as (_ & _ & ->).
  unfold tsum. rewrite v_gradient_no_batch_pair by done.
  by apply xdiv_zero.
Qed.

(** C1, the code at a 1 x 1 x 3 x 3 pair whose prediction differs from
    the target in one corner: both gradients of the code are empty and
    the loss is 0, while the gradients over the height axis and over the
    width axis, as the claim words them, each have a positive entry. *)
Theorem gradientloss_skips_height_and_width :
  has_shape 1 1 3 3 [[[[1; 1; 1]; [1; 1; 1]; [1; 1; 2]]]] /\
  has_shape 1 1 3 3 [[[[1; 1; 1]; [1; 1; 1]; [1; 1; 1]]]] /\
  flatten4 (v_gradient (__init__ true 1 None "loss_grad")
              [[[[1; 1; 1]; [1; 1; 1]; [1; 1; 2]]]]
              [[[[1; 1; 1]; [1; 1; 1]; [1; 1; 1]]]]) = [] /\
  flatten4 (h_gradient (__init__ true 1 None "loss_grad")
              [[[[1; 1; 1]; [1; 1; 1]; [1; 1; 2]]]]
              [[[[1; 1; 1]; [1; 1; 1]; [1; 1; 1]]]]) = [] /\
  forward (__init__ true 1 None "loss_grad")
          [[[[1; 1; 1]; [1; 1; 1]; [1; 1; 2]]]]
          [[[[1; 1; 1]; [1; 1; 1]; [1; 1; 1]]]] = Some 0 /\
  exists d : R,
    0 < d /\
    get4 (spec_v_gradient (__init__ true 1 None "loss_grad")
            [[[[1; 1; 1]; [1; 1; 1]; [1; 1; 2]]]]
            [[[[1; 1; 1]; [1; 1; 1]; [1; 1; 1]]]]) 0 0 0 2
      = Some (Some d) /\
    get4 (spec_h_gradient (__init__ true 1 None "loss_grad")
            [[[[1; 1; 1]; [1; 1; 1]; [1; 1; 2]]]]
            [[[[1; 1; 1]; [1; 1; 1]; [1; 1; 1]]]]) 0 0 2 0
      = Some (Some d).
Proof.
  assert (valid None 1 = true) as Hv by (apply valid_spec; split; [lra|done]).
  split; [by repeat constructor|]. split; [by repeat constructor|].
  split; [apply v_gradient_no_batch_pair; simpl; lia|].
  split; [apply h_gradient_empty; repeat constructor; simpl; lia|].
  split.
  - assert (forall i g,
              In g [ [[[[1; 1; 1]; [1; 1; 1]; [1; 1; 1]]]];
                     [[[[1; 1]; [1; 1]]]]; [[[[1]]]] ] ->
              scale_term (__init__ true 1 None "loss_grad") i g = Some 0) as Hz.
    { intros i g Hg. apply scale_term_blind.
      - simpl in Hg. destruct Hg as [<-|[<-|[<-|[]]]]; simpl; lia.
      - simpl in Hg.
        destruct Hg as [<-|[<-|[<-|[]]]];
          (apply Forall_cons_2; [simpl; lia | apply Forall_nil_2]).
      - rewrite normalizer_count. simpl valid_mask. cbv iota.
        apply INR_pos_ne. simpl in Hg.
        destruct Hg as [<-|[<-|[<-|[]]]]; unfold flatten4; simpl concat;
          rewrite filter_cons_True by exact Hv; simpl; lia. }
    unfold forward, gradientloss. rewrite scales_eq.
    change (stride_hw 2 [[[[1; 1; 1]; [1; 1; 1]; [1; 1; 1]]]])
      with [[[[1; 1]; [1; 1]]]].
    change (stride_hw 4 [[[[1; 1; 1]; [1; 1; 1]; [1; 1; 1]]]]) with [[[[1]]]].
    change (stride_hw 6 [[[[1; 1; 1]; [1; 1; 1]; [1; 1; 1]]]]) with [[[[1]]]].
    simpl foldl. rewrite !Hz by (simpl; tauto).
    simpl. f_equal. lra.
  - exists (ln (2 + 0.001) - ln (1 + 0.001)).
    assert (0 < ln (2 + 0.001) - ln (1 + 0.001)) as Hd.
    { assert (ln (1 + 0.001) < ln (2 + 0.001)); [|lra].
      apply ln_increasing; lra. }
    split; [exact Hd|].
    unfold spec_v_gradient, spec_h_gradient, log_d_diff, input_log,
      target_log, log_operand, mask.
    cbn -[rlog valid Rabs]. rewrite Hv, !rlog_pos by lra.
    cbn -[Rabs]. rewrite Rabs_left by lra.
    split; do 2 f_equal; lra.
Qed.

End GradientLoss_single_map.

(** ** The operands of the logarithms *)

Lemma map4_ext_Forall4 {A B} (P : A -> Prop) (f g : A -> B) (x : tensor4 A) :
  (forall v, P v -> f v = g v) -> Forall4 P x -> map4 f x = map4 g x.
Proof.
  intros Hfg. unfold Forall4, map4. intros Hx.
  apply Forall_fmap_ext. eapply Forall_impl; [exact Hx|]. simpl. intros ? H1.
  apply Forall_fmap_ext. eapply Forall_impl; [exact H1|]. simpl. intros ? H2.
  apply Forall_fmap_ext. eapply Forall_impl; [exact H2|]. simpl. intros ? H3.
  apply Forall_fmap_ext. eapply Forall_impl; [exact H3|]. done.
Qed.

Lemma mask_select_Forall {A} (P : A -> Prop) (x : tensor4 A) (m : tensor4 bool) :
  Forall4 P x -> Forall P (SigLoss.mask_select x m).
Proof.
  intros Hx. apply Forall4_flatten4 in Hx. unfold SigLoss.mask_select.
  generalize (flatten4 m). induction Hx as [|v l Hv _ IH]; intros [|b k];
    simpl; try constructor.
  rewrite filter_cons. destruct (decide _); csimpl; [constructor; [done|]|];
    apply IH.
Qed.

Lemma select_Forall (P : R -> Prop) self (input target : tensor4 R) :
  Forall4 P input -> Forall4 P target ->
  Forall P (fst (SigLoss.select self input target)) /\
  Forall P (snd (SigLoss.select self input target)).
Proof.
  intros Hi Ht. unfold SigLoss.select.
  destruct (SigLoss.valid_mask self); simpl; split;
    by (apply mask_select_Forall || apply Forall4_flatten4).
Qed.

Lemma trace_eps self calls :
  Forall (fun s => SigLoss.eps s = SigLoss.eps self) (SigLoss.trace self calls).
Proof.
  revert self. induction calls as [|[p g] calls IH]; intros self; simpl.
  - by constructor.
  - constructor; [done|].
    specialize (IH (snd (SigLoss.forward self p g))).
    rewrite forward_state in *.
    destruct (next_config self) as (_ & _ & _ & He & _).
    by rewrite He in IH.
Qed.

Section log_operands.

Variables (input target : tensor4 R).
Hypothesis input_nonneg : Forall4 (fun v => 0 <= v) input.
Hypothesis target_nonneg : Forall4 (fun v => 0 <= v) target.

Lemma gradientloss_log_operand (self : GradientLoss.t) (x : tensor4 R) :
  GradientLoss.eps self = 0.001 ->
  Forall4 (fun v => 0 <= v) x ->
  GradientLoss.log_operand self x = map4 (fun v => v + 0.001) x /\
  Forall4 (fun a => 0 < a) (GradientLoss.log_operand self x) /\
  GradientLoss.input_log self x = map4 (fun v => Some (ln (v + 0.001))) x /\
  GradientLoss.target_log self x = map4 (fun v => Some (ln (v + 0.001))) x.
Proof.
  intros He Hx.
  unfold GradientLoss.input_log, GradientLoss.target_log,
    GradientLoss.log_operand.
  rewrite He, map4_map4. split; [done|]. split; [|split].
  - eapply Forall4_map4; [|exact Hx]. simpl. intros. lra.
  - eapply map4_ext_Forall4; [|exact Hx]. simpl. intros v Hv.
    apply rlog_pos. lra.
  - eapply map4_ext_Forall4; [|exact Hx]. simpl. intros v Hv.
    apply rlog_pos. lra.
Qed.

Lemma sigloss_log_operand (self : SigLoss.t) (l : list R) :
  SigLoss.eps self = 0.001 ->
  Forall (fun v => 0 <= v) l ->
  SigLoss.log_operand self l = (fun v => v + 0.001) <$> l /\
  Forall (fun a => 0 < a) (SigLoss.log_operand self l) /\
  rlog <$> SigLoss.log_operand self l = (fun v => Some (ln (v + 0.001))) <$> l.
Proof.
  intros He Hl. unfold SigLoss.log_operand. rewrite He.
  split; [done|]. split.
  - apply Forall_fmap. eapply Forall_impl; [exact Hl|]. simpl. intros. lra.
  - rewrite <- list_fmap_compose. apply Forall_fmap_ext.
    eapply Forall_impl; [exact Hl|]. simpl. intros v Hv. apply rlog_pos. lra.
Qed.

(** C8: under the precondition that no element of the prediction or of
    the target is negative, every operand of a logarithm is an element
    plus exactly 0.001 and is positive, so every logarithm is finite: in
    [GradientLoss] at each of the four scales, and in [SigLoss] on the
    selected elements, for the instance in every state a sequence of
    calls leads to. *)
Theorem logarithm_operands_positive
    (vm : bool) (w : R) (md : option R) (name : string)
    (svm : bool) (sw : R) (smd : option R) (swu : bool) (swi : Z)
    (sname : string) (calls : list (tensor4 R * tensor4 R)) :
  GradientLoss.eps (GradientLoss.__init__ vm w md name) = 0.001 /\
  Forall (fun it =>
     (GradientLoss.log_operand (GradientLoss.__init__ vm w md name) (fst it)
        = map4 (fun v => v + 0.001) (fst it) /\
      Forall4 (fun a => 0 < a)
        (GradientLoss.log_operand (GradientLoss.__init__ vm w md name) (fst it)) /\
      GradientLoss.input_log (GradientLoss.__init__ vm w md name) (fst it)
        = map4 (fun v => Some (ln (v + 0.001))) (fst it)) /\
     (GradientLoss.log_operand (GradientLoss.__init__ vm w md name) (snd it)
        = map4 (fun v => v + 0.001) (snd it) /\
      Forall4 (fun a => 0 < a)
        (GradientLoss.log_operand (GradientLoss.__init__ vm w md name) (snd it)) /\
      GradientLoss.target_log (GradientLoss.__init__ vm w md name) (snd it)
        = map4 (fun v => Some (ln (v + 0.001))) (snd it)))
    (GradientLoss.scales input target) /\
  Forall (fun s =>
     SigLoss.eps s = 0.001 /\
     (SigLoss.log_operand s (fst (SigLoss.select s input target))
        = (fun v => v + 0.001) <$> fst (SigLoss.select s input target) /\
      Forall (fun a => 0 < a)
        (SigLoss.log_operand s (fst (SigLoss.select s input target)))) /\
     (SigLoss.log_operand s (snd (SigLoss.select s input target))
        = (fun v => v + 0.001) <$> snd (SigLoss.select s input target) /\
      Forall (fun a => 0 < a)
        (SigLoss.log_operand s (snd (SigLoss.select s input target)))) /\
     SigLoss.log_diff s (fst (SigLoss.select s input target))
                        (snd (SigLoss.select s input target))
       = zip_with (fun p d => Some (ln (p + 0.001) - ln (d + 0.001)))
                  (fst (SigLoss.select s input target))
                  (snd (SigLoss.select s input target)))
    (SigLoss.trace (SigLoss.__init__ svm sw smd swu swi sname) calls).
Proof.
  split; [done|]. split.
  - assert (forall k, Forall4 (fun v => 0 <= v) (stride_hw k input)) as Hi
      by (intros; by apply Forall4_stride_hw).
    assert (forall k, Forall4 (fun v => 0 <= v) (stride_hw k target)) as Ht
      by (intros; by apply Forall4_stride_hw).
    rewrite scales_eq.
    repeat (apply Forall_cons_2;
      [split; simpl;
       [ edestruct (gradientloss_log_operand
                      (GradientLoss.__init__ vm w md name)) as (? & ? & ? & _)
       | edestruct (gradientloss_log_operand
                      (GradientLoss.__init__ vm w md name)) as (? & ? & _ & ?) ];
       [reflexivity | | by repeat split | reflexivity | | by repeat split];
       first [ exact input_nonneg | exact target_nonneg
             | apply Hi | apply Ht ] |]).
    apply Forall_nil_2.
  - eapply Forall_impl;
      [exact (trace_eps (SigLoss.__init__ svm sw smd swu swi sname) calls)|].
    simpl. intros s He.
    destruct (select_Forall (fun v => 0 <= v) s input target
                input_nonneg target_nonneg) as [Hi Ht].
    destruct (sigloss_log_operand s _ He Hi) as (Hi1 & Hi2 & Hi3).
    destruct (sigloss_log_operand s _ He Ht) as (Ht1 & Ht2 & Ht3).
    repeat split; try done.
    unfold SigLoss.log_diff. rewrite Hi3, Ht3.
    by rewrite zip_with_fmap_l, zip_with_fmap_r.
Qed.

End log_operands.

(** C8 at a concrete pair with zero elements: the operands are positive
    at each scale. *)
Lemma logarithm_operands_positive_witness :
  Forall4 (fun v => 0 <= v) [[[[0; 3]]]] /\
  Forall4 (fun v => 0 <= v) [[[[2; 0]]]] /\
  Forall (fun it =>
            Forall4 (fun a => 0 < a)
              (GradientLoss.log_operand
                 (GradientLoss.__init__ true 1 None "loss_grad") (fst it)))
         (GradientLoss.scales [[[[0; 3]]]] [[[[2; 0]]]]).
Proof.
  assert (Forall4 (fun v => 0 <= v) [[[[0; 3]]]]) as Hi
    by (repeat constructor; lra).
  assert (Forall4 (fun v => 0 <= v) [[[[2; 0]]]]) as Ht
    by (repeat constructor; lra).
  split; [exact Hi|]. split; [exact Ht|].
  eapply Forall_impl;
    [exact (proj1 (proj2 (logarithm_operands_positive
                            [[[[0; 3]]]] [[[[2; 0]]]] Hi Ht
                            true 1 None "loss_grad"
                            true 1 None false 100%Z "sigloss" [])))|].
  simpl. intros it H. exact (proj1 (proj2 (proj1 H))).
Defined.

(** ** Cosine_MSE on equal arrays *)

Section Cosine_MSE_equal.

Import Cosine_MSE.

Lemma dot_self (l : list R) :
  0 <= dot l l /\ (dot l l = 0 -> Forall (fun v => v = 0) l).
Proof.
  unfold dot. induction l as [|v l [IH0 IH]]; simpl.
  - split; [lra | constructor].
  - pose proof (Rle_0_sqr v) as Hv. unfold Rsqr in Hv. split; [lra|].
    intros Hz. assert (v * v = 0) as Hvv by lra.
    constructor; [|apply IH; lra].
    by destruct (Rmult_integral _ _ Hvv).
Qed.

Lemma cosine_similarity_self (row : list R) :
  cosine_similarity row row =
    Some (dot row row / (dot row row + EPSILON)).
Proof.
  destruct (dot_self row) as [Hd _].
  unfold cosine_similarity, EPSILON. simpl.
  rewrite Rleb_true by nra.
  rewrite sqrt_square by lra.
  by rewrite Req_zero_false by lra.
Qed.

Lemma cosine_row_equal (row : list R) :
  xadd (if Req_zero (1 - 1)
        then xsub (Some 1) (cosine_similarity row row) else Some 0)
       (if Req_zero (1 + 1)
        then Rmax 0 <$> cosine_similarity row row else Some 0)
  = Some (1 - dot row row / (dot row row + EPSILON)).
Proof.
  replace (1 - 1) with 0 by lra.
  rewrite Req_zero_true, Req_zero_false by lra.
  rewrite cosine_similarity_self. simpl. f_equal. lra.
Qed.

Lemma cosine_rows_equal (rows : list (list R)) :
  CosineEmbeddingLoss rows rows ((fun _ => 1) <$> rows) =
    xmean ((fun row => Some (1 - dot row row / (dot row row + EPSILON)))
             <$> rows).
Proof.
  unfold CosineEmbeddingLoss. f_equal.
  induction rows as [|row rows IH]; csimpl; [done|].
  f_equal; [apply cosine_row_equal | exact IH].
Qed.

Lemma xsum_bounds (lo hi : R) (l : list xreal) :
  Forall (fun a => exists v, a = Some v /\ lo <= v <= hi) l ->
  exists s, xsum l = Some s /\
            lo * INR (length l) <= s <= hi * INR (length l).
Proof.
  induction 1 as [|a l (v & -> & Hv) _ (s & Hs & Hb)].
  - exists 0. simpl. split; [done | lra].
  - exists (v + s). change (xsum (Some v :: l)) with (xadd (Some v) (xsum l)).
    rewrite Hs. split; [done|].
    cbn [length]. rewrite S_INR. nra.
Qed.

Lemma xmean_bounds (lo hi : R) (l : list xreal) :
  (0 < length l)%nat ->
  Forall (fun a => exists v, a = Some v /\ lo <= v <= hi) l ->
  exists r, xmean l = Some r /\ lo <= r <= hi.
Proof.
  intros Hn Hl. destruct (xsum_bounds lo hi l Hl) as (s & Hs & Hb).
  assert (0 < INR (length l)) as Hpos by (by apply lt_0_INR).
  exists (s / INR (length l)). unfold xmean. rewrite Hs. simpl.
  rewrite Req_zero_false by lra. split; [done|].
  split.
  - apply (Rmult_le_reg_r (INR (length l))); [done|].
    unfold Rdiv. rewrite Rmult_assoc, Rinv_l by lra. lra.
  - apply (Rmult_le_reg_r (INR (length l))); [done|].
    unfold Rdiv. rewrite Rmult_assoc, Rinv_l by lra. lra.
Qed.

(** One minus the cosine of a row with itself: between 0 and
    [EPSILON / m] when the squared norm of the row is at least [m]. *)
Lemma cosine_row_bounds (m : R) (row : list R) :
  0 < m -> m <= dot row row ->
  0 <= 1 - dot row row / (dot row row + EPSILON) <= EPSILON / m.
Proof.
  intros Hm Hd. unfold EPSILON.
  assert (0 < dot row row + 1e-12) as Hpos by lra.
  replace (1 - dot row row / (dot row row + 1e-12))
    with (1e-12 / (dot row row + 1e-12)) by (field; lra).
  split.
  - apply Rmult_le_pos; [lra|]. by apply Rlt_le, Rinv_0_lt_compat.
  - unfold Rdiv. apply Rmult_le_compat_l; [lra|].
    apply Rinv_le_contravar; lra.
Qed.

Lemma normalize_row_finite (row : list R) (mn mx : R) :
  mn <= mx ->
  normalize_row row (Some mn) (Some mx) =
    (fun v => Some ((v - mn) / (mx - mn + 1e-6))) <$> row.
Proof.
  intros Hle. unfold normalize_row. apply list_fmap_ext. intros _ v _.
  simpl. by rewrite Req_zero_false by lra.
Qed.

Lemma normalize_finite (rows : list (list R)) :
  Forall nonzero_range rows ->
  Forall is_Some
    (concat (normalize rows (row_min <$> rows) (row_max <$> rows))).
Proof.
  unfold normalize.
  induction 1 as [|row rows (mn & mx & Hmn & Hmx & Hlt) _ IH]; csimpl;
    [constructor|].
  apply Forall_app. split; [|exact IH].
  rewrite Hmn, Hmx, normalize_row_finite by lra.
  apply Forall_fmap, Forall_true. by eexists.
Qed.

Lemma normalize_nonempty (rows : list (list R)) :
  rows <> [] ->
  Forall nonzero_range rows ->
  (0 < length (concat (normalize rows (row_min <$> rows) (row_max <$> rows))))%nat.
Proof.
  intros Hne Hrows. destruct Hrows as [|row rows (mn & mx & Hmn & _) _]; [done|].
  unfold normalize. csimpl. rewrite length_app. unfold normalize_row.
  rewrite length_fmap. destruct row; [done|]. simpl. lia.
Qed.

Lemma squared_difference_self (l : list xreal) :
  Forall is_Some l ->
  Forall (fun d => d = Some 0)
         (zip_with (fun a b => xsquare (xsub a b)) l l) /\
  length (zip_with (fun a b => xsquare (xsub a b)) l l) = length l.
Proof.
  intros Hl. split; [|by rewrite length_zip_with, Nat.min_id].
  induction Hl as [|a l [v ->] _ IH]; simpl; constructor; [|exact IH].
  f_equal. lra.
Qed.

End Cosine_MSE_equal.

(** ** The rearrangement "b c h w -> (b h w) c" *)

Section rearrange_shape.

Import Cosine_MSE.

Context {A : Type}.

Lemma transpose_length (n : nat) (cols : list (list A)) :
  Forall (fun c => length c = n) cols -> length (transpose n cols) = n.
Proof.
  induction 1 as [|c cols Hc _ IH]; simpl.
  - by rewrite length_replicate.
  - rewrite length_zip_with, IH, Hc. lia.
Qed.

Lemma transpose_lookup (n : nat) (cols : list (list A)) (i j : nat) :
  Forall (fun c => length c = n) cols ->
  transpose n cols !! i ≫= (fun row => row !! j) =
  cols !! j ≫= (fun c => c !! i).
Proof.
  intros Hcols. revert j.
  induction Hcols as [|c cols Hc Hcols IH]; intros j; simpl.
  - destruct (replicate n [] !! i) as [row|] eqn:Hrow; simpl; [|done].
    apply lookup_replicate in Hrow as [-> _]. done.
  - rewrite lookup_zip_with.
    destruct (decide (i < n)%nat) as [Hi|Hi].
    + destruct (lookup_lt_is_Some_2 c i ltac:(lia)) as [v Hv].
      destruct (lookup_lt_is_Some_2 (transpose n cols) i) as [row Hrow];
        [by rewrite transpose_length|].
      rewrite Hv, Hrow. simpl. destruct j as [|j]; simpl; [done|].
      by rewrite <- IH, Hrow.
    + assert (c !! i = None) as Hv by (apply lookup_ge_None_2; lia).
      rewrite Hv. simpl.
      destruct j as [|j]; simpl; [done|].
      rewrite <- IH, (lookup_ge_None_2 (transpose n cols) i); [done|].
      rewrite transpose_length by done. lia.
Qed.

Lemma concat_lookup_uniform (n : nat) (ls : list (list A)) (i j : nat) :
  Forall (fun l => length l = n) ls ->
  (j < n)%nat ->
  concat ls !! (i * n + j)%nat = ls !! i ≫= (fun l => l !! j).
Proof.
  intros Hls Hj. revert i.
  induction Hls as [|l ls Hl _ IH]; intros i; simpl; [done|].
  destruct i as [|i]; simpl.
  - by rewrite lookup_app_l by lia.
  - rewrite lookup_app_r by lia. rewrite <- IH. f_equal. lia.
Qed.

Lemma pixels_shape (C H W : nat) (image : list (list (list A))) :
  (0 < C)%nat ->
  length image = C ->
  Forall (fun m => length m = H /\ Forall (fun r => length r = W) m) image ->
  length (pixels image) = (H * W)%nat /\
  Forall (fun row => length row = C) (pixels image) /\
  forall c h w,
    (w < W)%nat ->
    (row ← pixels image !! (h * W + w)%nat; row !! c) =
    (m ← image !! c; r ← m !! h; r !! w).
Proof.
  intros HC Hlen Himage. unfold pixels.
  assert (Forall (fun ch : list A => length ch = (H * W)%nat)
            ((fun channel => concat channel) <$> image)) as Hch.
  { apply Forall_fmap. eapply Forall_impl; [exact Himage|]. simpl.
    intros m [Hm Hr]. by rewrite (length_concat_uniform W), Hm. }
  assert (length (default [] (head ((fun channel => concat channel) <$> image)))
            = (H * W)%nat) as ->.
  { destruct image as [|m image]; [simpl in Hlen; lia|].
    csimpl. by inversion Hch. }
  split; [by apply transpose_length|]. split.
  - clear Hch. rewrite <- Hlen. clear.
    induction image as [|m image IH]; csimpl.
    + by apply Forall_replicate.
    + apply Forall_zip_with_2 with (P := fun _ => True)
        (Q := fun row => length row = length image);
        [| by apply Forall_true | exact IH].
      intros ? ? _ <-. done.
  - intros c h w Hw. rewrite transpose_lookup by done.
    rewrite list_lookup_fmap.
    destruct (image !! c) as [m|] eqn:Hm; simpl; [|done].
    eapply Forall_lookup_1 in Himage as [_ Hr]; [|exact Hm].
    by apply concat_lookup_uniform.
Qed.

End rearrange_shape.

Lemma rearrange_shape {A} (B C H W : nat) (x : tensor4 A) :
  has_shape B C H W x ->
  (0 < C)%nat ->
  length (Cosine_MSE.rearrange x) = (B * (H * W))%nat /\
  Forall (fun row => length row = C) (Cosine_MSE.rearrange x) /\
  forall b c h w,
    (h < H)%nat -> (w < W)%nat ->
    (row ← Cosine_MSE.rearrange x !! (b * (H * W) + (h * W + w))%nat; row !! c)
      = get4 x b c h w.
Proof.
  intros [HB Hx] HC. unfold Cosine_MSE.rearrange.
  assert (Forall (fun p : list (list A) => length p = (H * W)%nat)
            (fmap (M := list) Cosine_MSE.pixels x)) as Hp.
  { apply Forall_fmap. eapply Forall_impl; [exact Hx|]. simpl.
    intros image [Hlen Him].
    by destruct (pixels_shape C H W image HC Hlen Him) as [? _]. }
  split; [|split].
  - by rewrite (length_concat_uniform (H * W)), length_fmap, HB.
  - apply Forall_concat, Forall_fmap. eapply Forall_impl; [exact Hx|]. simpl.
    intros image [Hlen Him].
    by destruct (pixels_shape C H W image HC Hlen Him) as (_ & ? & _).
  - intros b c h w Hh Hw.
    rewrite (concat_lookup_uniform (H * W)); [|done|nia].
    rewrite list_lookup_fmap. unfold get4.
    destruct ((x : list _) !! b) as [image|] eqn:Hb; simpl; [|done].
    eapply Forall_lookup_1 in Hx as [Hlen Him]; [|exact Hb].
    destruct (pixels_shape C H W image HC Hlen Him) as (_ & _ & Hl).
    by apply Hl.
Qed.

Section Cosine_MSE_claims.

Import Cosine_MSE.

Lemma forward_equal_rows (x : tensor4 R) :
  rearrange x <> [] ->
  Forall nonzero_range (rearrange x) ->
  MSELoss (normalize (rearrange x) (row_min <$> rearrange x)
                     (row_max <$> rearrange x))
          (normalize (rearrange x) (row_min <$> rearrange x)
                     (row_max <$> rearrange x)) = Some 0.
Proof.
  intros Hne Hrows. unfold MSELoss.
  destruct (squared_difference_self _ (normalize_finite _ Hrows)) as [Hz Hl].
  apply xmean_zero; [done|]. rewrite Hl. by apply normalize_nonempty.
Qed.

Lemma cosine_term_equal_rows (m : R) (rows : list (list R)) :
  rows <> [] ->
  0 < m ->
  Forall (fun row => m <= dot row row) rows ->
  exists c,
    CosineEmbeddingLoss rows rows ((fun _ => 1) <$> rows) = Some c /\
    0 <= c <= EPSILON / m.
Proof.
  intros Hne Hm Hrows. rewrite cosine_rows_equal.
  apply xmean_bounds.
  - rewrite length_fmap. destruct rows; [done | simpl; lia].
  - apply Forall_fmap. eapply Forall_impl; [exact Hrows|]. simpl.
    intros row Hrow. eexists. split; [done|]. by apply cosine_row_bounds.
Qed.

(** C6 (as amended): take an array of shape (B, C, H, W) with all four
    sizes positive as prediction and as target, whose rows after the
    rearrangement all have a maximum above their minimum and a squared
    norm between [m > 0] and [1e18].  Both arrays are normalized with
    the minimum and maximum of the target's rows, an entry [v] of a row
    with minimum [mn] and maximum [mx] becoming
    [(v - mn) / (mx - mn + 1e-6)], and the MSE term is exactly 0.  The
    cosine embedding term is the mean over the rows of
    [1 - |row|^2 / (|row|^2 + 1e-12)], since the library adds [1e-12] to
    each squared norm: it is not 0, and the value [Cosine_MSE] returns
    lies between 0 and [1e-11 / m].  (In exact arithmetic it is at most
    [1e-12 / m]; the bound stated leaves room for the rounding of the
    library's floats, and the bound [1e18] on the squared norms keeps
    their product within the range of 32-bit floats; neither rounding
    nor overflow is represented here.) *)
Theorem cosine_mse_equal_arrays (B C H W : nat) (x : tensor4 R) (m : R) :
  has_shape B C H W x ->
  (0 < B)%nat -> (0 < C)%nat -> (0 < H)%nat -> (0 < W)%nat ->
  Forall nonzero_range (rearrange x) ->
  0 < m ->
  Forall (fun row => m <= dot row row <= 1e18) (rearrange x) ->
  (exists r,
     forward __init__ x x = Some r /\
     cosine_loss __init__ (rearrange x) (rearrange x)
                 ((fun _ => 1) <$> rearrange x) = Some r /\
     0 <= r <= 1e-11 / m) /\
  cosine_loss __init__ (rearrange x) (rearrange x)
              ((fun _ => 1) <$> rearrange x) =
    xmean ((fun row => Some (1 - dot row row / (dot row row + 1e-12)))
             <$> rearrange x) /\
  mse_loss __init__
    (normalize (rearrange x) (row_min <$> rearrange x) (row_max <$> rearrange x))
    (normalize (rearrange x) (row_min <$> rearrange x) (row_max <$> rearrange x))
    = Some 0 /\
  (forall pred target,
     forward __init__ pred target =
       xadd (cosine_loss __init__ (rearrange pred) (rearrange target)
                         ((fun _ => 1) <$> rearrange target))
            (mse_loss __init__
               (normalize (rearrange pred) (row_min <$> rearrange target)
                          (row_max <$> rearrange target))
               (normalize (rearrange target) (row_min <$> rearrange target)
                          (row_max <$> rearrange target)))) /\
  (forall row mn mx,
     mn <= mx ->
     normalize_row row (Some mn) (Some mx) =
       (fun v => Some ((v - mn) / (mx - mn + 1e-6))) <$> row).
Proof.
  intros Hs HB HC HH HW Hrows Hm Hnorm.
  assert (rearrange x <> []) as Hne.
  { destruct (rearrange_shape B C H W x Hs HC) as (Hlen & _).
    intros Hnil. rewrite Hnil in Hlen. simpl in Hlen. nia. }
  pose proof (forward_equal_rows x Hne Hrows) as Hmse.
  destruct (cosine_term_equal_rows m (rearrange x) Hne Hm) as (c & Hcos & Hc).
  { eapply Forall_impl; [exact Hnorm|]. simpl. intros row Hrow. lra. }
  split; [|split; [apply cosine_rows_equal|split; [exact Hmse|split]]].
  - exists c. split; [|split; [exact Hcos|]].
    + unfold forward. simpl cosine_loss. simpl mse_loss.
      rewrite Hcos, Hmse. simpl. f_equal. lra.
    + unfold EPSILON in Hc. split; [lra|].
      apply Rle_trans with (1e-12 / m); [lra|].
      unfold Rdiv. apply Rmult_le_compat_r; [|lra].
      by apply Rlt_le, Rinv_0_lt_compat.
  - done.
  - apply normalize_row_finite.
Qed.

(** C6 at a concrete array: two pixels, with the channels 3, 4 and
    0, 1. *)
Lemma cosine_mse_equal_arrays_witness :
  has_shape 1 2 1 2 [[[[3; 0]]; [[4; 1]]]] /\
  Forall nonzero_range (rearrange [[[[3; 0]]; [[4; 1]]]]) /\
  Forall (fun row => 1 <= dot row row <= 1e18)
         (rearrange [[[[3; 0]]; [[4; 1]]]]) /\
  exists r,
    forward __init__ [[[[3; 0]]; [[4; 1]]]] [[[[3; 0]]; [[4; 1]]]] = Some r /\
    0 <= r <= 1e-11 / 1.
Proof.
  assert (has_shape 1 2 1 2 [[[[3; 0]]; [[4; 1]]]]) as Hs by (repeat constructor).
  assert (Forall nonzero_range (rearrange [[[[3; 0]]; [[4; 1]]]])) as Hr.
  { change (rearrange [[[[3; 0]]; [[4; 1]]]]) with [[3; 4]; [0; 1]].
    apply Forall_cons_2; [|apply Forall_cons_2; [|apply Forall_nil_2]].
    - exists 3, 4. simpl. rewrite Rmin_left, Rmax_right by lra.
      repeat split; lra.
    - exists 0, 1. simpl. rewrite Rmin_left, Rmax_right by lra.
      repeat split; lra. }
  assert (Forall (fun row => 1 <= dot row row <= 1e18)
                 (rearrange [[[[3; 0]]; [[4; 1]]]])) as Hn.
  { change (rearrange [[[[3; 0]]; [[4; 1]]]]) with [[3; 4]; [0; 1]].
    apply Forall_cons_2; [|apply Forall_cons_2; [|apply Forall_nil_2]];
      unfold dot; simpl; lra. }
  split; [exact Hs|]. split; [exact Hr|]. split; [exact Hn|].
  destruct (cosine_mse_equal_arrays 1 2 1 2 [[[[3; 0]]; [[4; 1]]]] 1 Hs
              ltac:(lia) ltac:(lia) ltac:(lia) ltac:(lia) Hr ltac:(lra) Hn)
    as [(r & Hf & _ & Hb) _].
  exists r. split; [exact Hf | exact Hb].
Defined.

(** C6, the claim as stated fails: one pixel with the channels 1e-6 and
    2e-6 has a non-degenerate range, and on it as prediction and as
    target [Cosine_MSE] returns 1/6: the squared norm 5e-12 is not large
    against the [1e-12] the library adds to it. *)
Lemma cosine_mse_of_small_rows :
  has_shape 1 2 1 1 [[[[1e-6]]; [[2e-6]]]] /\
  Forall nonzero_range (rearrange [[[[1e-6]]; [[2e-6]]]]) /\
  forward __init__ [[[[1e-6]]; [[2e-6]]]] [[[[1e-6]]; [[2e-6]]]]
    = Some (1 / 6).
Proof.
  assert (Forall nonzero_range (rearrange [[[[1e-6]]; [[2e-6]]]])) as Hr.
  { change (rearrange [[[[1e-6]]; [[2e-6]]]]) with [[1e-6; 2e-6]].
    apply Forall_cons_2; [|apply Forall_nil_2].
    exists 1e-6, 2e-6. simpl. rewrite Rmin_left, Rmax_right by lra.
    repeat split; lra. }
  split; [repeat constructor|]. split; [exact Hr|].
  unfold forward. simpl cosine_loss. simpl mse_loss.
  rewrite forward_equal_rows by done.
  rewrite cosine_rows_equal.
  change (rearrange [[[[1e-6]]; [[2e-6]]]]) with [[1e-6; 2e-6]].
  unfold xmean, dot, EPSILON. simpl.
  rewrite Req_zero_false by lra. simpl. f_equal. field.
Qed.

(** X16.  On an array without rows (an empty batch) both terms of
    [Cosine_MSE] are means over no element, and the value returned is
    not a number. *)
Lemma cosine_mse_of_empty_arrays :
  Forall nonzero_range (rearrange ([] : tensor4 R)) /\
  forward __init__ [] [] = None.
Proof.
  split; [constructor|].
  unfold forward. simpl cosine_loss.
  change (rearrange ([] : tensor4 R)) with ([] : list (list R)).
  unfold CosineEmbeddingLoss, xmean. simpl. by rewrite Req_zero_true.
Qed.

End Cosine_MSE_claims.

(** * Further properties of the code *)

(** ** GradientLoss: small batches, invalid targets, sign *)

Section GradientLoss_more.

Import GradientLoss.

Lemma scale_term_small self input target :
  (length target <= 2)%nat ->
  Forall (fun image => (length image <= 2)%nat) target ->
  scale_term self input target =
    xdiv (Some 0) (Some (normalizer self input target)).
Proof.
  intros Hb Hc.
  destruct (scale_few_channels self input target Hc) as (_ & _ & ->).
  unfold tsum. by rewrite v_gradient_no_batch_pair.
Qed.

Lemma has_shape_same_numel {A B'} (B C H W : nat)
    (x : tensor4 A) (y : tensor4 B') :
  has_shape B C H W x -> has_shape B C H W y -> numel x = numel y.
Proof.
  intros Hx Hy.
  by rewrite (has_shape_numel _ _ _ _ _ Hx), (has_shape_numel _ _ _ _ _ Hy).
Qed.

Lemma stride_hw_length {A} (k : nat) (x : tensor4 A) :
  length (stride_hw k x) = length x.
Proof. unfold stride_hw. by rewrite length_fmap. Qed.

Lemma scale_term_small_any_input self (B C H W : nat) input input' target :
  has_shape B C H W input -> has_shape B C H W input' ->
  has_shape B C H W target ->
  (B <= 2)%nat -> (C <= 2)%nat ->
  scale_term self input target = scale_term self input' target.
Proof.
  intros Hi Hi' [HB Ht] HB2 HC2.
  assert (Forall (fun image => (length image <= 2)%nat) target) as Hc.
  { eapply Forall_impl; [exact Ht|]. simpl. intros ? [-> _]. lia. }
  rewrite !scale_term_small by (done || lia).
  unfold normalizer. destruct (valid_mask self); [done|].
  by rewrite (has_shape_same_numel _ _ _ _ _ _ Hi Hi').
Qed.

(** X1.  With at most two batch entries and at most two channels (a single
    depth map, a stereo pair) the loss does not depend on the prediction:
    any two predictions of the shape of the target give the same value,
    and that value is 0 when the arrays are not empty and [valid_mask] is
    off. *)
Theorem gradientloss_blind_on_small_batches
    (self : t) (B C H W : nat) (input input' target : tensor4 R) :
  has_shape B C H W input ->
  has_shape B C H W input' ->
  has_shape B C H W target ->
  (B <= 2)%nat -> (C <= 2)%nat ->
  forward self input target = forward self input' target /\
  (valid_mask self = false ->
   (0 < B)%nat -> (0 < C)%nat -> (0 < H)%nat -> (0 < W)%nat ->
   forward self input target = Some 0).
Proof.
  intros Hi Hi' Ht HB HC.
  assert (forall k,
            scale_term self (stride_hw k input) (stride_hw k target) =
            scale_term self (stride_hw k input') (stride_hw k target)) as Hk.
  { intros k. eapply scale_term_small_any_input;
      eauto using has_shape_stride_hw. }
  split.
  - unfold forward. rewrite !gradientloss_unfold.
    by rewrite !Hk, (scale_term_small_any_input self B C H W input input').
  - intros Hv HB0 HC0 HH0 HW0.
    assert (forall (x g : tensor4 R) H' W',
              has_shape B C H' W' x -> has_shape B C H' W' g ->
              (0 < H')%nat -> (0 < W')%nat ->
              scale_term self x g = Some 0) as Hz.
    { intros x g H' W' Hx [HgB Hg] HH' HW'.
      rewrite scale_term_small.
      - apply xdiv_zero. unfold normalizer. rewrite Hv.
        apply INR_pos_ne. by eapply has_shape_positive_numel.
      - lia.
      - eapply Forall_impl; [exact Hg|]. simpl. intros ? [-> _]. lia. }
    unfold forward. rewrite gradientloss_unfold.
    rewrite (Hz input target H W) by done.
    rewrite !(Hz (stride_hw _ input) (stride_hw _ target) _ _
                 (has_shape_stride_hw _ _ _ _ _ _ Hi)
                 (has_shape_stride_hw _ _ _ _ _ _ Ht))
      by (by apply strided_length_pos).
    simpl. f_equal. lra.
Qed.

Lemma gradientloss_blind_on_small_batches_witness :
  has_shape 1 1 2 2 [[[[1; 2]; [3; 4]]]] /\
  forward (__init__ true 1 None "loss_grad")
          [[[[1; 2]; [3; 4]]]] [[[[5; 5]; [5; 5]]]]
    = forward (__init__ true 1 None "loss_grad")
              [[[[9; 9]; [9; 9]]]] [[[[5; 5]; [5; 5]]]].
Proof.
  assert (forall a b c d : R, has_shape 1 1 2 2 [[[[a; b]; [c; d]]]]) as Hs
    by (intros; repeat constructor).
  split; [apply Hs|].
  exact (proj1 (gradientloss_blind_on_small_batches
                  (__init__ true 1 None "loss_grad") 1 1 2 2
                  [[[[1; 2]; [3; 4]]]] [[[[9; 9]; [9; 9]]]]
                  [[[[5; 5]; [5; 5]]]]
                  (Hs _ _ _ _) (Hs _ _ _ _) (Hs _ _ _ _)
                  ltac:(lia) ltac:(lia))).
Defined.

End GradientLoss_more.

Section GradientLoss_edges.

Import GradientLoss.

Lemma xdiv_by_zero (a : xreal) : xdiv a (Some 0) = None.
Proof. destruct a; simpl; [|done]. by rewrite Req_zero_true. Qed.

Lemma xadd_None_r (a : xreal) : xadd a None = None.
Proof. by destruct a. Qed.

Lemma rsum_zeros (l : list R) : Forall (fun v => v = 0) l -> rsum l = 0.
Proof.
  induction 1 as [|v l -> _ IH]; [done|]. simpl rsum. rewrite IH. lra.
Qed.

Lemma scale_term_no_valid self input target :
  valid_mask self = true ->
  Forall4 (fun d => valid (max_depth self) d = false) target ->
  scale_term self input target = None.
Proof.
  intros Hv Ht. unfold scale_term, normalizer, mask. rewrite Hv.
  rewrite rsum_zeros; [apply xdiv_by_zero|].
  apply Forall4_flatten4. eapply Forall4_map4; [|exact Ht].
  by intros d ->.
Qed.

(** X2.  Under [valid_mask], when at one of the four scales no target element
    is valid, that scale divides by [N = 0] and the whole loss is not a
    finite number, whatever the other scales hold.  A target whose valid
    pixels all lie in odd rows is such a case: the subsamples keep even
    rows only. *)
Theorem gradientloss_nan_when_a_scale_has_no_valid_target
    (self : t) (input target : tensor4 R) :
  valid_mask self = true ->
  Exists (fun it => Forall4 (fun d => valid (max_depth self) d = false) (snd it))
         (scales input target) ->
  forward self input target = None.
Proof.
  intros Hv Hex. unfold forward. rewrite gradientloss_unfold.
  rewrite scales_eq in Hex.
  repeat (apply Exists_cons in Hex as [Hex|Hex];
          [simpl in Hex; rewrite (scale_term_no_valid _ _ _ Hv Hex);
           by rewrite ?xadd_None_r|]).
  by apply Exists_nil in Hex.
Qed.

Lemma gradientloss_nan_when_a_scale_has_no_valid_target_witness :
  Exists (fun it => Forall4 (fun d => valid None d = false) (snd it))
         (scales [[[[1; 1]; [4; 4]]]] [[[[0; 0]; [5; 5]]]]) /\
  forward (__init__ true 1 None "loss_grad")
          [[[[1; 1]; [4; 4]]]] [[[[0; 0]; [5; 5]]]] = None.
Proof.
  assert (Exists (fun it => Forall4 (fun d => valid None d = false) (snd it))
            (scales [[[[1; 1]; [4; 4]]]] [[[[0; 0]; [5; 5]]]])) as Hex.
  { rewrite scales_eq. apply Exists_cons_tl, Exists_cons_hd.
    change (Forall4 (fun d => valid None d = false) [[[[0]]]]).
    repeat apply Forall_cons_2; try apply Forall_nil_2.
    apply Rltb_false. lra. }
  split; [exact Hex|].
  exact (gradientloss_nan_when_a_scale_has_no_valid_target
           (__init__ true 1 None "loss_grad")
           [[[[1; 1]; [4; 4]]]] [[[[0; 0]; [5; 5]]]] eq_refl Hex).
Defined.

(** *** Sign *)

(** A computed value that, when finite, is not negative. *)
Local Abbreviation nonneg := (from_option (fun r => 0 <= r) True).

Lemma xsum_nonneg (l : list xreal) : Forall nonneg l -> nonneg (xsum l).
Proof.
  induction 1 as [|a l Ha _ IH]; simpl; [lra|].
  destruct a as [x|]; [|done]. fold (xsum l).
  destruct (xsum l) as [s|]; simpl in *; [lra | done].
Qed.

Lemma mask_nonneg self target : Forall4 (fun m => 0 <= m) (mask self target).
Proof.
  unfold mask. destruct (valid_mask self);
    (eapply Forall4_map4; [|apply Forall4_True]); simpl; intros d _;
    [destruct (valid _ d); simpl|]; lra.
Qed.

Lemma masked_abs_nonneg (g : tensor4 xreal) (m m' : tensor4 R) :
  Forall4 (fun v => 0 <= v) m -> Forall4 (fun v => 0 <= v) m' ->
  Forall4 nonneg (zip4 xmul (map4 xabs g) (map4 Some (zip4 Rmult m m'))).
Proof.
  intros Hm Hm'.
  eapply Forall4_zip4 with (P := nonneg)
    (Q := fun a => exists r, a = Some r /\ 0 <= r).
  - intros a b Ha (r & -> & Hr). destruct a as [x|]; simpl in *; [|done].
    by apply Rmult_le_pos.
  - eapply Forall4_map4; [|apply Forall4_True].
    intros [x|] _; simpl; [apply Rabs_pos | done].
  - eapply Forall4_map4 with (P := fun v => 0 <= v); [by eauto|].
    eapply Forall4_zip4; [|exact Hm|exact Hm'].
    intros. by apply Rmult_le_pos.
Qed.

Lemma normalizer_nonneg self input target : 0 <= normalizer self input target.
Proof. rewrite normalizer_count. apply pos_INR. Qed.

Lemma scale_term_nonneg self input target :
  nonneg (scale_term self input target).
Proof.
  unfold scale_term.
  pose proof (mask_nonneg self target) as Hm.
  destruct (Forall4_axis0 _ _ Hm), (Forall4_axis1 _ _ Hm).
  assert (nonneg (tsum (h_gradient self input target))) as Hh
    by (apply xsum_nonneg, Forall4_flatten4; by apply masked_abs_nonneg).
  assert (nonneg (tsum (v_gradient self input target))) as Hv
    by (apply xsum_nonneg, Forall4_flatten4; by apply masked_abs_nonneg).
  destruct (tsum (h_gradient self input target)) as [h|]; [|done].
  destruct (tsum (v_gradient self input target)) as [v|]; [|done].
  simpl in *. pose proof (normalizer_nonneg self input target) as HN.
  unfold Req_zero. destruct (Req_dec_T _ 0) as [|Hne]; simpl; [done|].
  apply Rmult_le_pos; [lra|].
  apply Rlt_le, Rinv_0_lt_compat. lra.
Qed.

Lemma weighted_sum_nonneg (w : R) (a b c d : xreal) (r : R) :
  0 <= w -> nonneg a -> nonneg b -> nonneg c -> nonneg d ->
  xmul (Some w) (xadd (xadd (xadd (xadd (Some 0) a) b) c) d) = Some r ->
  0 <= r.
Proof.
  intros Hw Ha Hb Hc Hd.
  destruct a, b, c, d; simpl in *; try done.
  intros [= <-]. apply Rmult_le_pos; lra.
Qed.

(** X3.  With a non-negative [loss_weight] the loss, when it is a finite
    number, is not negative, for any prediction and target. *)
Theorem gradientloss_not_negative
    (self : t) (input target : tensor4 R) (r : R) :
  0 <= loss_weight self ->
  forward self input target = Some r ->
  0 <= r.
Proof.
  intros Hw. unfold forward. rewrite gradientloss_unfold.
  apply weighted_sum_nonneg; [done|..]; apply scale_term_nonneg.
Qed.

Lemma gradientloss_not_negative_witness :
  0 <= loss_weight (__init__ true 1 None "loss_grad") /\
  forward (__init__ true 1 None "loss_grad") [[[[2]]]] [[[[2]]]] = Some 0 /\
  0 <= 0.
Proof.
  assert (forward (__init__ true 1 None "loss_grad") [[[[2]]]] [[[[2]]]]
            = Some 0) as Hf.
  { eapply gradientloss_equal with (B := 1%nat) (C := 1%nat) (H := 1%nat)
      (W := 1%nat); try lia; [simpl; lra | by repeat constructor |].
    repeat apply Forall_cons_2; try apply Forall_nil_2.
    apply valid_spec. split; [lra | done]. }
  split; [simpl; lra|]. split; [exact Hf|].
  exact (gradientloss_not_negative (__init__ true 1 None "loss_grad")
           [[[[2]]]] [[[[2]]]] 0 ltac:(simpl; lra) Hf).
Defined.

(** *** Elements outside the domain of the logarithm *)

Lemma elem_of_concat {A} (x : A) (l : list A) (ls : list (list A)) :
  x ∈ l -> l ∈ ls -> x ∈ concat ls.
Proof.
  intros Hx. induction ls as [|l' ls IH]; intros Hl;
    [by apply elem_of_nil in Hl|].
  simpl. apply elem_of_app.
  apply elem_of_cons in Hl as [<-|Hl]; [by left | right; by apply IH].
Qed.

Lemma get4_elem_of {A} (x : tensor4 A) (b c h w : nat) (a : A) :
  get4 x b c h w = Some a -> a ∈ flatten4 x.
Proof.
  unfold get4, flatten4. intros Hg.
  destruct ((x : list _) !! b) as [x1|] eqn:H1; simpl in Hg; [|done].
  destruct (x1 !! c) as [x2|] eqn:H2; simpl in Hg; [|done].
  destruct (x2 !! h) as [x3|] eqn:H3; simpl in Hg; [|done].
  apply (elem_of_concat _ x3); [by eapply list_elem_of_lookup_2|].
  apply (elem_of_concat _ x2); [by eapply list_elem_of_lookup_2|].
  apply (elem_of_concat _ x1); by eapply list_elem_of_lookup_2.
Qed.

Lemma xsum_None (l : list xreal) : None ∈ l -> xsum l = None.
Proof.
  induction l as [|a l IH]; intros Hin; [by apply elem_of_nil in Hin|].
  apply elem_of_cons in Hin as [<-|Hin]; [done|].
  change (xsum (a :: l)) with (xadd a (xsum l)).
  rewrite IH by done. apply xadd_None_r.
Qed.

Lemma has_shape_get4 {A} (B C H W : nat) (x : tensor4 A) (b c h w : nat) :
  has_shape B C H W x ->
  (b < B)%nat -> (c < C)%nat -> (h < H)%nat -> (w < W)%nat ->
  is_Some (get4 x b c h w).
Proof.
  intros [HB Hx] Hb Hc Hh Hw. unfold get4.
  destruct (lookup_lt_is_Some_2 (x : list _) b ltac:(lia)) as [x1 H1].
  rewrite H1. simpl.
  eapply Forall_lookup_1 in Hx as [HC Hx1]; [|exact H1].
  destruct (lookup_lt_is_Some_2 x1 c ltac:(lia)) as [x2 H2].
  rewrite H2. simpl.
  eapply Forall_lookup_1 in Hx1 as [HH Hx2]; [|exact H2].
  destruct (lookup_lt_is_Some_2 x2 h ltac:(lia)) as [x3 H3].
  rewrite H3. simpl.
  eapply Forall_lookup_1 in Hx2; [|exact H3].
  apply lookup_lt_is_Some_2. lia.
Qed.

Lemma mask_get4 self target (b c h w : nat) (d : R) :
  get4 target b c h w = Some d ->
  is_Some (get4 (mask self target) b c h w).
Proof.
  intros Hd. unfold mask. destruct (valid_mask self);
    rewrite get4_map4, Hd; by eexists.
Qed.

Lemma log_d_diff_get4 self input target (b c h w : nat) (a d : R) :
  get4 input b c h w = Some a ->
  get4 target b c h w = Some d ->
  exists m,
    get4 (mask self target) b c h w = Some m /\
    get4 (log_d_diff self input target) b c h w =
      Some (xmul (xsub (rlog (a + eps self)) (rlog (d + eps self))) (Some m)).
Proof.
  intros Ha Hd. destruct (mask_get4 self target b c h w d Hd) as [m Hm].
  exists m. split; [done|].
  unfold log_d_diff, input_log, target_log, log_operand.
  by rewrite !get4_zip4, !get4_map4, Ha, Hd, Hm.
Qed.

End GradientLoss_edges.

Section GradientLoss_log_domain.

Import GradientLoss.

Lemma v_gradient_entry_None self input target (b c h w : nat) :
  is_Some (get4 (log_d_diff self input target) b c h w) ->
  is_Some (get4 (log_d_diff self input target) (b + 2) c h w) ->
  is_Some (get4 (mask self target) b c h w) ->
  is_Some (get4 (mask self target) (b + 2) c h w) ->
  get4 (log_d_diff self input target) b c h w = Some None \/
  get4 (log_d_diff self input target) (b + 2) c h w = Some None ->
  tsum (v_gradient self input target) = None.
Proof.
  intros [d Hd] [d' Hd'] [m Hm] [m' Hm'] Hnone.
  apply xsum_None, (get4_elem_of _ b c h w).
  rewrite v_gradient_get4, Hd, Hd', Hm, Hm'. simpl. f_equal.
  destruct Hnone as [Hn|Hn]; rewrite Hn in *; simplify_eq; [done|].
  by destruct d.
Qed.

(** X4.  Multiplying by the mask does not remove a value that is not a
    number.  When an element of the target (an invalid depth coded as a
    negative number, say) or of the prediction is at or below [-eps], its
    logarithm is not finite, and as soon as its batch index takes part in
    a pair [b, b + 2] the loss is not a finite number, although the
    element is masked out. *)
Theorem gradientloss_nan_from_masked_element
    (self : t) (B C H W : nat) (input target : tensor4 R)
    (b c h w : nat) (a d : R) :
  has_shape B C H W input ->
  has_shape B C H W target ->
  get4 input b c h w = Some a ->
  get4 target b c h w = Some d ->
  (b + 2 < B)%nat \/ (2 <= b)%nat ->
  a + eps self <= 0 \/ d + eps self <= 0 ->
  forward self input target = None.
Proof.
  intros Hi Ht Ha Hd Hb Hlog.
  assert (b < B)%nat as HbB.
  { apply mk_is_Some, get4_length in Ha. destruct Hi as [<- _]. done. }
  assert (c < C /\ h < H /\ w < W)%nat as (Hc & Hh & Hw).
  { destruct Hi as [_ Hi]. unfold get4 in Ha.
    destruct ((input : list _) !! b) as [x1|] eqn:H1; simpl in Ha; [|done].
    eapply Forall_lookup_1 in Hi as [<- Hx1]; [|exact H1].
    destruct (x1 !! c) as [x2|] eqn:H2; simpl in Ha; [|done].
    eapply Forall_lookup_1 in Hx1 as [<- Hx2]; [|exact H2].
    destruct (x2 !! h) as [x3|] eqn:H3; simpl in Ha; [|done].
    eapply Forall_lookup_1 in Hx2 as <-; [|exact H3].
    apply lookup_lt_Some in H2, H3, Ha. done. }
  assert (forall b', (b' < B)%nat ->
            is_Some (get4 (log_d_diff self input target) b' c h w) /\
            is_Some (get4 (mask self target) b' c h w)) as Hsome.
  { intros b' Hb'.
    destruct (has_shape_get4 B C H W input b' c h w) as [a' Ha']; try done.
    destruct (has_shape_get4 B C H W target b' c h w) as [d' Hd']; try done.
    destruct (log_d_diff_get4 self input target b' c h w a' d' Ha' Hd')
      as (m & Hm & Hld).
    split; by eexists. }
  assert (get4 (log_d_diff self input target) b c h w = Some None) as Hnone.
  { destruct (log_d_diff_get4 self input target b c h w a d Ha Hd)
      as (m & _ & ->).
    f_equal. unfold rlog.
    destruct Hlog as [Hl|Hl]; rewrite (Rltb_false 0 _ Hl); [done|].
    by destruct (Rltb 0 (a + eps self)). }
  assert (tsum (v_gradient self input target) = None) as Hv.
  { destruct Hb as [Hb|Hb].
    - apply (v_gradient_entry_None self input target b c h w);
        try apply Hsome; try lia. by left.
    - replace b with (b - 2 + 2)%nat in Hnone by lia.
      apply (v_gradient_entry_None self input target (b - 2) c h w);
        try apply Hsome; try lia;
        try (replace (b - 2 + 2)%nat with b by lia; apply Hsome; lia).
      by right. }
  unfold forward. rewrite gradientloss_unfold.
  unfold scale_term at 1. by rewrite Hv, xadd_None_r.
Qed.

Lemma gradientloss_nan_from_masked_element_witness :
  has_shape 3 1 1 1 [[[[1]]]; [[[1]]]; [[[1]]]] /\
  has_shape 3 1 1 1 [[[[-1]]]; [[[1]]]; [[[1]]]] /\
  forward (__init__ true 1 None "loss_grad")
          [[[[1]]]; [[[1]]]; [[[1]]]] [[[[-1]]]; [[[1]]]; [[[1]]]] = None.
Proof.
  assert (forall x y z : R, has_shape 3 1 1 1 [[[[x]]]; [[[y]]]; [[[z]]]])
    as Hs by (intros; repeat constructor).
  split; [apply Hs|]. split; [apply Hs|].
  exact (gradientloss_nan_from_masked_element
           (__init__ true 1 None "loss_grad") 3 1 1 1
           [[[[1]]]; [[[1]]]; [[[1]]]] [[[[-1]]]; [[[1]]]; [[[1]]]]
           0 0 0 0 1 (-1) (Hs _ _ _) (Hs _ _ _) eq_refl eq_refl
           ltac:(left; lia) ltac:(right; simpl; lra)).
Defined.

End GradientLoss_log_domain.

(** ** SigLoss: few elements, sign, masking *)

Section SigLoss_more.

Import SigLoss.






(** *** Sign *)

Lemma xsqrt_nonneg (a : xreal) (r : R) : xsqrt a = Some r -> 0 <= r.
Proof.
  destruct a as [x|]; simpl; [|done].
  destruct (Rleb 0 x); [|done]. intros [= <-]. apply sqrt_pos.
Qed.

Lemma weighted_sqrt_nonneg (w : R) (a : xreal) (r : R) :
  0 <= w -> xmul (Some w) (xsqrt a) = Some r -> 0 <= r.
Proof.
  intros Hw. destruct (xsqrt a) as [s|] eqn:Hs; simpl; [|done].
  intros [= <-]. apply Rmult_le_pos; [done|]. by eapply xsqrt_nonneg.
Qed.

Lemma xsum_squares_nonneg (l : list xreal) (m : xreal) (s : R) :
  xsum ((fun g => xsquare (xsub g m)) <$> l) = Some s -> 0 <= s.
Proof.
  revert s. induction l as [|a l IH]; intros s; csimpl.
  - intros [= <-]. lra.
  - fold (xsum ((fun g => xsquare (xsub g m)) <$> l)).
    destruct (xsum ((fun g => xsquare (xsub g m)) <$> l)) as [s'|];
      [|by rewrite xadd_None_r].
    destruct a as [x|], m as [y|]; simpl; try done.
    intros [= <-]. specialize (IH s' eq_refl).
    pose proof (Rle_0_sqr (x - y)) as Hsq. unfold Rsqr in Hsq. lra.
Qed.

Lemma xvar_nonneg (g : list xreal) (v m : R) :
  xvar g = Some v -> xmean g = Some m -> 0 <= v.
Proof.
  unfold xvar, xmean. intros Hv Hm.
  destruct (xsum ((fun a => xsquare (xsub a _)) <$> g)) as [s|] eqn:Hs;
    [|done].
  apply xsum_squares_nonneg in Hs.
  simpl in Hv. unfold Req_zero in Hv.
  destruct (Req_dec_T (INR (length g) - 1) 0) as [|Hne1]; [done|].
  injection Hv as <-.
  destruct (xsum g) as [t|]; [|done]. simpl in Hm. unfold Req_zero in Hm.
  destruct (Req_dec_T (INR (length g)) 0) as [|Hne0]; [done|].
  assert (2 <= length g)%nat as Hlen.
  { destruct g as [|? [|? ?]]; simpl in *; [lra | lra | lia]. }
  apply le_INR in Hlen. simpl in Hlen.
  apply Rmult_le_pos; [done|]. apply Rlt_le, Rinv_0_lt_compat. lra.
Qed.

(** X7.  With a non-negative [loss_weight] the value of a call, when it is a
    finite number, is not negative; and on any one pair the warm-up
    formula never exceeds the full formula, which adds the variance
    under the square root. *)
Theorem sigloss_not_negative_and_warm_up_below_full
    (self : t) (input target : tensor4 R) :
  0 <= loss_weight self ->
  (forall r, fst (forward self input target) = Some r -> 0 <= r) /\
  (forall a b,
     warm_up_value self input target = Some a ->
     full_value self input target = Some b ->
     a <= b).
Proof.
  intros Hw. split.
  - intros r. rewrite forward_value. unfold warm_up_value, full_value.
    destruct (select self input target) as [i g].
    destruct (_ && _); by apply weighted_sqrt_nonneg.
  - intros a b. unfold warm_up_value, full_value.
    destruct (select self input target) as [i g].
    destruct (xmean (log_diff self i g)) as [m|] eqn:Hm;
      [|simpl; by destruct (xvar _)].
    destruct (xvar (log_diff self i g)) as [v|] eqn:Hv; [|done].
    pose proof (xvar_nonneg _ _ _ Hv Hm) as Hv0.
    simpl. pose proof (Rle_0_sqr m) as Hsq. unfold Rsqr in Hsq.
    rewrite !Rleb_true by lra.
    intros [= <-] [= <-]. apply Rmult_le_compat_l; [done|].
    apply sqrt_le_1_alt. lra.
Qed.

Lemma sigloss_not_negative_and_warm_up_below_full_witness :
  0 <= loss_weight (__init__ true 2 None false 100 "sigloss") /\
  (forall r,
     fst (forward (__init__ true 2 None false 100 "sigloss")
                  [[[[1; 2]]]] [[[[3; 4]]]]) = Some r -> 0 <= r).
Proof.
  split; [simpl; lra|].
  exact (proj1 (sigloss_not_negative_and_warm_up_below_full
                  (__init__ true 2 None false 100 "sigloss")
                  [[[[1; 2]]]] [[[[3; 4]]]] ltac:(simpl; lra))).
Defined.

End SigLoss_more.

Section SigLoss_masking.

Import SigLoss.




Lemma filter_zip_agree (f : R -> bool) (l l' k : list R) :
  length l = length l' ->
  Forall (fun p => f (snd p) = true -> fst (fst p) = snd (fst p))
         (zip (zip l l') k) ->
  fst <$> filter (fun p => f (snd p) = true) (zip l k) =
  fst <$> filter (fun p => f (snd p) = true) (zip l' k).
Proof.
  revert l' k. induction l as [|a l IH]; intros [|a' l'] [|d k] Hlen Hag;
    simpl in *; try done.
  apply Forall_cons in Hag as [Ha Hag]. simpl in Ha.
  rewrite !filter_cons. simpl.
  destruct (decide (f d = true)) as [Hd|Hd]; csimpl.
  - rewrite (Ha Hd). f_equal. apply IH; [lia | done].
  - apply IH; [lia | done].
Qed.

(** X9.  Under [valid_mask] the prediction only matters where the target is
    valid: two predictions of one shape that agree at every valid target
    position give the same value and leave the same instance. *)
Theorem sigloss_ignores_prediction_at_invalid_targets
    (self : t) (input input' target : tensor4 R) :
  valid_mask self = true ->
  same_shape input input' ->
  Forall (fun p => valid (max_depth self) (snd p) = true ->
                   fst (fst p) = snd (fst p))
         (zip (zip (flatten4 input) (flatten4 input')) (flatten4 target)) ->
  forward self input target = forward self input' target.
Proof.
  intros Hv Hs Hag. apply same_shape_numel in Hs. unfold numel in Hs.
  assert (select self input target = select self input' target) as Hsel.
  { unfold select. rewrite Hv. f_equal.
    rewrite !mask_select_filter. by apply filter_zip_agree. }
  unfold forward, sigloss. by rewrite Hsel.
Qed.

Lemma sigloss_ignores_prediction_at_invalid_targets_witness :
  same_shape [[[[7; 3]]]] [[[[9; 3]]]] /\
  forward (__init__ true 1 None false 100 "sigloss")
          [[[[7; 3]]]] [[[[0; 2]]]]
    = forward (__init__ true 1 None false 100 "sigloss")
              [[[[9; 3]]]] [[[[0; 2]]]].
Proof.
  split; [reflexivity|].
  refine (sigloss_ignores_prediction_at_invalid_targets
            (__init__ true 1 None false 100 "sigloss")
            [[[[7; 3]]]] [[[[9; 3]]]] [[[[0; 2]]]] eq_refl eq_refl _).
  repeat apply Forall_cons_2; try apply Forall_nil_2; simpl; [|done].
  intros Hv. apply (valid_pos None) in Hv. lra.
Defined.

End SigLoss_masking.

(** ** Subsampling and rearrangement: shapes and composition *)

Lemma every_from_length {A} (k skip : nat) (l : list A) :
  (0 < k)%nat ->
  length (every_from k skip l) =
    if decide (length l <= skip)%nat then 0%nat
    else S ((length l - skip - 1) / k).
Proof.
  intros Hk. revert skip. induction l as [|x l IH]; intros skip.
  - cbn [every_from length]. by rewrite decide_True by lia.
  - destruct skip as [|s]; cbn [every_from length].
    + rewrite (decide_False (P := (S (length l) <= 0)%nat)) by lia.
      rewrite IH. f_equal.
      replace (S (length l) - 0 - 1)%nat with (length l) by lia.
      case_decide.
      * symmetry. apply Nat.div_small. lia.
      * replace (length l) with (length l - (k - 1) - 1 + 1 * k)%nat at 2 by lia.
        rewrite Nat.div_add by lia. lia.
    + rewrite IH. repeat case_decide; try lia.
      by replace (S (length l) - S s - 1)%nat with (length l - s - 1)%nat by lia.
Qed.

Lemma strided_length_ceil (k n : nat) :
  (0 < k)%nat -> strided_length k n = ((n + k - 1) / k)%nat.
Proof.
  intros Hk. unfold strided_length, every.
  rewrite every_from_length, length_replicate by done.
  case_decide.
  - symmetry. apply Nat.div_small. lia.
  - replace (n + k - 1)%nat with (n - 0 - 1 + 1 * k)%nat by lia.
    rewrite Nat.div_add by lia. lia.
Qed.

(** X10.  A subsample with step [k] of an array of shape (B, C, H, W) has
    shape (B, C, ceil(H / k), ceil(W / k)): batch and channels are kept,
    and a non-empty axis stays non-empty. *)
Theorem stride_hw_shape {A} (k B C H W : nat) (x : tensor4 A) :
  (0 < k)%nat ->
  has_shape B C H W x ->
  has_shape B C ((H + k - 1) / k) ((W + k - 1) / k) (stride_hw k x) /\
  numel (stride_hw k x) = (B * C * ((H + k - 1) / k) * ((W + k - 1) / k))%nat.
Proof.
  intros Hk Hx.
  assert (has_shape B C ((H + k - 1) / k) ((W + k - 1) / k) (stride_hw k x))
    as Hs.
  { rewrite <- !strided_length_ceil by done. by apply has_shape_stride_hw. }
  split; [exact Hs | by apply has_shape_numel].
Qed.

Lemma stride_hw_shape_witness :
  (0 < 2)%nat /\
  has_shape 1 1 3 3 [[[[1; 2; 3]; [4; 5; 6]; [7; 8; 9]]]]%nat /\
  has_shape 1 1 ((3 + 2 - 1) / 2) ((3 + 2 - 1) / 2)
    (stride_hw 2 [[[[1; 2; 3]; [4; 5; 6]; [7; 8; 9]]]]%nat).
Proof.
  assert (has_shape 1 1 3 3 [[[[1; 2; 3]; [4; 5; 6]; [7; 8; 9]]]]%nat) as Hs
    by (repeat constructor).
  split; [lia|]. split; [exact Hs|].
  exact (proj1 (stride_hw_shape 2 1 1 3 3 _ ltac:(lia) Hs)).
Defined.

Lemma every_every {A} (j k : nat) (l : list A) :
  (0 < j)%nat -> (0 < k)%nat -> every j (every k l) = every (j * k) l.
Proof.
  intros Hj Hk. apply list_eq. intros i.
  rewrite !every_lookup by lia. f_equal. lia.
Qed.

(** X11.  Subsampling composes by multiplying the steps: the subsample with
    step [j] of the subsample with step [k] is the subsample with step
    [j * k].  So the scale with step 4 is the step-2 subsample of the
    scale with step 2, and the scale with step 6 its step-3 subsample. *)
Theorem stride_hw_compose {A} (j k : nat) (x : tensor4 A) :
  (0 < j)%nat -> (0 < k)%nat ->
  stride_hw j (stride_hw k x) = stride_hw (j * k) x.
Proof.
  intros Hj Hk. unfold stride_hw.
  rewrite <- list_fmap_compose. apply list_fmap_ext. intros _ image _. simpl.
  rewrite <- list_fmap_compose. apply list_fmap_ext. intros _ m _. simpl.
  unfold every at 2. rewrite every_from_fmap. fold (every j (every k m)).
  rewrite every_every by done.
  rewrite <- list_fmap_compose. apply list_fmap_ext. intros _ r _. simpl.
  by apply every_every.
Qed.

Lemma stride_hw_compose_witness :
  (0 < 2)%nat /\
  stride_hw 2 (stride_hw 2 [[[[1; 2; 3; 4; 5]]]]%nat)
    = stride_hw (2 * 2) [[[[1; 2; 3; 4; 5]]]]%nat.
Proof.
  split; [lia|].
  exact (stride_hw_compose 2 2 [[[[1; 2; 3; 4; 5]]]]%nat
           ltac:(lia) ltac:(lia)).
Defined.

(** X12.  [rearrange(x, "b c h w -> (b h w) c")] of an array of shape
    (B, C, H, W) with at least one channel has B * H * W rows of C
    entries, and entry [c] of the row number [b * H * W + h * W + w] is
    [x[b, c, h, w]]. *)
Theorem rearrange_layout {A} (B C H W : nat) (x : tensor4 A) :
  has_shape B C H W x ->
  (0 < C)%nat ->
  length (Cosine_MSE.rearrange x) = (B * (H * W))%nat /\
  Forall (fun row => length row = C) (Cosine_MSE.rearrange x) /\
  forall b c h w,
    (h < H)%nat -> (w < W)%nat ->
    (row ← Cosine_MSE.rearrange x !! (b * (H * W) + (h * W + w))%nat; row !! c)
      = get4 x b c h w.
Proof. apply rearrange_shape. Qed.

Lemma rearrange_layout_witness :
  has_shape 1 2 1 2 [[[[1; 2]]; [[3; 4]]]]%nat /\
  (0 < 2)%nat /\
  length (Cosine_MSE.rearrange [[[[1; 2]]; [[3; 4]]]]%nat) = (1 * (1 * 2))%nat.
Proof.
  assert (has_shape 1 2 1 2 [[[[1; 2]]; [[3; 4]]]]%nat) as Hs
    by (repeat constructor).
  split; [exact Hs|]. split; [lia|].
  exact (proj1 (rearrange_layout 1 2 1 2 _ Hs ltac:(lia))).
Defined.

(** ** Cosine_MSE: the normalization *)

Section Cosine_MSE_normalization.

Import Cosine_MSE.

Lemma foldl_Rmin_bounds (r : list R) (x : R) :
  foldl Rmin x r <= x /\ Forall (fun v => foldl Rmin x r <= v) r.
Proof.
  revert x. induction r as [|v r IH]; intros x; simpl.
  - split; [lra | constructor].
  - destruct (IH (Rmin x v)) as [H1 H2].
    pose proof (Rmin_l x v). pose proof (Rmin_r x v).
    split; [lra|]. constructor; [lra | exact H2].
Qed.

Lemma foldl_Rmax_bounds (r : list R) (x : R) :
  x <= foldl Rmax x r /\ Forall (fun v => v <= foldl Rmax x r) r.
Proof.
  revert x. induction r as [|v r IH]; intros x; simpl.
  - split; [lra | constructor].
  - destruct (IH (Rmax x v)) as [H1 H2].
    pose proof (Rmax_l x v). pose proof (Rmax_r x v).
    split; [lra|]. constructor; [lra | exact H2].
Qed.

Lemma row_bounds (row : list R) :
  row <> [] ->
  exists mn mx,
    row_min row = Some mn /\ row_max row = Some mx /\
    Forall (fun v => mn <= v <= mx) row.
Proof.
  destruct row as [|x r]; [done|]. intros _.
  exists (foldl Rmin x r), (foldl Rmax x r). simpl.
  destruct (foldl_Rmin_bounds r x) as [Hn1 Hn2].
  destruct (foldl_Rmax_bounds r x) as [Hx1 Hx2].
  repeat split; try done. constructor; [lra|].
  rewrite Forall_forall in *. intros v Hv.
  specialize (Hn2 v Hv). specialize (Hx2 v Hv). lra.
Qed.

(** X13.  The [1e-6] in the denominator keeps the normalization of a
    target row with at least one channel away from a division by zero.
    For entries of magnitude at most 1e38, whose differences stay
    within the range of the library's 32-bit floats, every normalized
    target entry is a finite number in the closed interval from 0 to 1,
    and a target row whose entries are all equal is normalized to
    zeros. *)
Theorem normalization_range (row : list R) :
  row <> [] ->
  Forall (fun v => Rabs v <= 1e38) row ->
  Forall (fun u => exists r, u = Some r /\ 0 <= r <= 1)
         (normalize_row row (row_min row) (row_max row)) /\
  (row_min row = row_max row ->
   normalize_row row (row_min row) (row_max row) = (fun _ => Some 0) <$> row).
Proof.
  intros Hne _. destruct (row_bounds row Hne) as (mn & mx & Hmn & Hmx & Hb).
  assert (mn <= mx) as Hle.
  { destruct row as [|x r]; [done|]. inversion Hb; subst. lra. }
  rewrite Hmn, Hmx, !normalize_row_finite by done.
  split.
  - apply Forall_fmap. eapply Forall_impl; [exact Hb|]. simpl.
    intros v Hv. eexists. split; [done|].
    assert (0 < mx - mn + 1e-6) as Hd by lra. split.
    + apply Rmult_le_pos; [lra|]. by apply Rlt_le, Rinv_0_lt_compat.
    + apply (Rmult_le_reg_r (mx - mn + 1e-6)); [done|].
      unfold Rdiv. rewrite Rmult_assoc, Rinv_l by lra. lra.
  - intros [= ->]. apply Forall_fmap_ext.
    eapply Forall_impl; [exact Hb|]. simpl. intros v Hv. f_equal.
    replace v with mx by lra. unfold Rdiv. lra.
Qed.

Lemma normalization_range_witness :
  [0; 1000] <> [] /\
  Forall (fun v => Rabs v <= 1e38) [0; 1000] /\
  Forall (fun u => exists r, u = Some r /\ 0 <= r <= 1)
         (normalize_row [0; 1000] (row_min [0; 1000]) (row_max [0; 1000])).
Proof.
  assert (Forall (fun v => Rabs v <= 1e38) [0; 1000]) as Hb.
  { apply Forall_cons_2; [|apply Forall_cons_2; [|apply Forall_nil_2]].
    - rewrite Rabs_R0. lra.
    - rewrite Rabs_pos_eq by lra. lra. }
  split; [done|]. split; [exact Hb|].
  exact (proj1 (normalization_range [0; 1000] ltac:(done) Hb)).
Defined.

End Cosine_MSE_normalization.

(** ** GradientLoss: what the mask hides *)

Section GradientLoss_masking.

Import GradientLoss.










End GradientLoss_masking.

Section Cosine_MSE_offset.

Import Cosine_MSE.

Lemma foldl_Rmin_shift (c : R) (r : list R) (x : R) :
  foldl Rmin (x + c) ((fun v => v + c) <$> r) = foldl Rmin x r + c.
Proof.
  revert x. induction r as [|v r IH]; intros x; csimpl; [done|].
  rewrite <- IH. f_equal.
  unfold Rmin. destruct (Rle_dec (x + c) (v + c)), (Rle_dec x v); lra.
Qed.

Lemma foldl_Rmax_shift (c : R) (r : list R) (x : R) :
  foldl Rmax (x + c) ((fun v => v + c) <$> r) = foldl Rmax x r + c.
Proof.
  revert x. induction r as [|v r IH]; intros x; csimpl; [done|].
  rewrite <- IH. f_equal.
  unfold Rmax. destruct (Rle_dec (x + c) (v + c)), (Rle_dec x v); lra.
Qed.

(** X15.  The normalization removes an offset common to prediction and
    target: adding one constant to every entry of a row and of the
    target row it is normalized with leaves the normalized row as it
    was.  (The cosine term is computed on the arrays as given and does
    not share this.) *)
Theorem normalization_removes_common_offset (c : R) (row target_row : list R) :
  normalize_row ((fun v => v + c) <$> row)
                (row_min ((fun v => v + c) <$> target_row))
                (row_max ((fun v => v + c) <$> target_row))
  = normalize_row row (row_min target_row) (row_max target_row).
Proof.
  destruct target_row as [|x r]; csimpl.
  - unfold normalize_row. rewrite <- list_fmap_compose.
    by apply list_fmap_ext.
  - rewrite foldl_Rmin_shift, foldl_Rmax_shift.
    unfold normalize_row. rewrite <- list_fmap_compose.
    apply list_fmap_ext. intros _ v _. simpl.
    replace (foldl Rmax x r + c - (foldl Rmin x r + c) + 1e-6)
      with (foldl Rmax x r - foldl Rmin x r + 1e-6) by lra.
    replace (v + c - (foldl Rmin x r + c)) with (v - foldl Rmin x r) by lra.
    done.
Qed.

End Cosine_MSE_offset.
